(** * GameDatabase: the enrichment and incremental-sync pipeline of [main.py]

    A shallow embedding of the script's index builder, title matcher,
    player-count fetcher, catalog fetcher and sync loop, followed by the
    properties of the design document that concern them.

    Conventions of the embedding.
    - Values decoded from the two Steam endpoints are untyped Python
      values ([pyval]); a Python exception is a [Raise].
    - The FreeToGame catalog is taken as decoded, well-typed rows
      ([CatalogRecord]), the shape the [Game] columns prescribe.
    - The network is an oracle from the history of requests and the current
      request to a response; [requests.get] itself never raises.
    - The SQLAlchemy session is a pair of committed rows and staged rows.
    - The state also carries a log of the requests sent and a ghost log of
      the calls the loop makes to its two helpers, so that statements about
      calls that do not happen can be written down.
    - [fuzz.token_sort_ratio] (with the pre-processing [process.extractOne]
      wraps around it) is a parameter of the development.
    - [str.lower()], which Python computes from the Unicode tables, is a
      parameter too, written [lower]: nothing proved below depends on which
      letters it changes. *)

From Stdlib Require Import ZArith List String Ascii Bool Lia.
From Stdlib Require Import Permutation.
Import ListNotations.
Open Scope string_scope.
Open Scope list_scope.
Open Scope Z_scope.
Set Warnings "-register-all".

(** ** Python values and exceptions *)

Inductive pyval : Type :=
| PNone
| PBool (b : bool)
| PInt (z : Z)
| PStr (s : string)
| PList (l : list pyval)
| PDict (d : list (string * pyval)).

Inductive exn : Type :=
| TypeError
| KeyError
| AttributeError
| JSONDecodeError.

Inductive result (A : Type) : Type :=
| Ok (a : A)
| Raise (e : exn).
Arguments Ok {A} a.
Arguments Raise {A} e.

(** A [dict] with string keys, in insertion order; every key occurs once
    when the dict is built with [dict_set] from the empty dict. *)
Definition dict := list (string * pyval).

Fixpoint dict_get (k : string) (d : dict) : option pyval :=
  match d with
  | [] => None
  | (k', v) :: d' => if String.eqb k k' then Some v else dict_get k d'
  end.

Definition dict_contains (k : string) (d : dict) : bool :=
  match dict_get k d with Some _ => true | None => false end.

(** [d[k] = v]: an existing key keeps its position and takes the new value,
    a new key goes to the end. *)
Fixpoint dict_set (k : string) (v : pyval) (d : dict) : dict :=
  match d with
  | [] => [(k, v)]
  | (k', v') :: d' =>
      if String.eqb k k' then (k', v) :: d' else (k', v') :: dict_set k v d'
  end.

Definition dict_keys (d : dict) : list string := map fst d.

(** [d[k]] on a dict. *)
Definition dict_getitem (d : dict) (k : string) : result pyval :=
  match dict_get k d with
  | Some v => Ok v
  | None => Raise KeyError
  end.

(** [needle in haystack] on two strings. *)
Fixpoint is_substring (needle hay : string) : bool :=
  if String.prefix needle hay then true
  else match hay with
       | EmptyString => false
       | String _ hay' => is_substring needle hay'
       end.

(** [bool(v)] *)
Definition truthy (v : pyval) : bool :=
  match v with
  | PNone => false
  | PBool b => b
  | PInt z => negb (z =? 0)
  | PStr s => negb (String.eqb s EmptyString)
  | PList l => match l with [] => false | _ => true end
  | PDict d => match d with [] => false | _ => true end
  end.

(** [v is None] *)
Definition is_None (v : pyval) : bool :=
  match v with PNone => true | _ => false end.

(** [v[k]] with a string subscript. *)
Definition py_getitem (v : pyval) (k : string) : result pyval :=
  match v with
  | PDict d => dict_getitem d k
  | _ => Raise TypeError
  end.

(** [v.get(k, default)] *)
Definition py_get (v : pyval) (k : string) (default : pyval) : result pyval :=
  match v with
  | PDict d => match dict_get k d with Some x => Ok x | None => Ok default end
  | _ => Raise AttributeError
  end.

(** [k in v] with a string on the left. *)
Definition py_in (k : string) (v : pyval) : result bool :=
  match v with
  | PDict d => Ok (dict_contains k d)
  | PList l =>
      Ok (existsb (fun x => match x with PStr s => String.eqb k s | _ => false end) l)
  | PStr s => Ok (is_substring k s)
  | _ => Raise TypeError
  end.

Fixpoint chars (s : string) : list pyval :=
  match s with
  | EmptyString => []
  | String c s' => PStr (String c EmptyString) :: chars s'
  end.

(** The elements a [for] loop visits. *)
Definition py_iter (v : pyval) : result (list pyval) :=
  match v with
  | PList l => Ok l
  | PDict d => Ok (map (fun kv => PStr (fst kv)) d)
  | PStr s => Ok (chars s)
  | _ => Raise TypeError
  end.

(** [v.lower()], given [str.lower]. *)
Definition py_lower (lower : string -> string) (v : pyval) : result string :=
  match v with
  | PStr s => Ok (lower s)
  | _ => Raise AttributeError
  end.

(** ** Data model *)

(** One decoded entry of the FreeToGame catalog. *)
Record CatalogRecord : Type := mkCatalogRecord {
  c_id : Z;
  c_title : string;
  c_thumbnail : string;
  c_short_description : string;
  c_game_url : string;
  c_genre : string;
  c_platform : string;
  c_publisher : string;
  c_developer : string;
  c_release_date : string;
  c_freetogame_profile_url : string
}.

(** A row of the [games] table (class [Game]). *)
Record Game : Type := mkGame {
  id : Z;
  title : string;
  thumbnail : string;
  short_description : string;
  game_url : string;
  genre : string;
  platform : string;
  publisher : string;
  developer : string;
  release_date : string;
  freetogame_profile_url : string;
  steam_appid : pyval;
  steam_player_count : pyval
}.

(** The three addresses the script requests. *)
Inductive url : Type :=
| API_URL
| STEAM_API_URL
| PLAYERS_URL (app_id : pyval).

(** What [requests.get] hands back: the status, the raw text and the outcome
    of [response.json()] ([None] when the body is not JSON). *)
Record response (A : Type) : Type := mkResponse {
  status_code : Z;
  text : string;
  json : option A
}.
Arguments mkResponse {A}.
Arguments status_code {A}.
Arguments text {A}.
Arguments json {A}.

(** The outside world: each answer may depend on the requests made so far. *)
Record network : Type := mkNetwork {
  steam_api : list url -> url -> response pyval;
  freetogame_api : list url -> url -> response (list CatalogRecord)
}.

(** Lines written by [print]. *)
Inductive line : Type :=
| FailedSteamAppList (status : Z)
| FailedData (status : Z)
| Text (s : string)
| Processing (index total : nat) (game_title : string).

(** Entries into the two per-record helpers, recorded where the loop calls
    them (ghost state: the script keeps no such log). *)
Inductive call : Type :=
| CallMatchAppId (name : string)
| CallGetSteamPlayerCount (app_id : pyval).

(** The process state: the table as committed, the rows staged in the
    session, the requests sent, the helper calls and the output. *)
Record state : Type := mkState {
  db : list Game;
  pending : list Game;
  http_log : list url;
  call_log : list call;
  stdout : list line
}.

(** The five ways the script changes its state. *)
Definition with_request (u : url) (s : state) : state :=
  mkState (db s) (pending s) (http_log s ++ [u]) (call_log s) (stdout s).

Definition with_call (c : call) (s : state) : state :=
  mkState (db s) (pending s) (http_log s) (call_log s ++ [c]) (stdout s).

Definition with_line (l : line) (s : state) : state :=
  mkState (db s) (pending s) (http_log s) (call_log s) (stdout s ++ [l]).

Definition staged (g : Game) (s : state) : state :=
  mkState (db s) (pending s ++ [g]) (http_log s) (call_log s) (stdout s).

Definition committed (s : state) : state :=
  mkState (db s ++ pending s) [] (http_log s) (call_log s) (stdout s).

(** ** State and exception monad *)

Definition M (A : Type) : Type := state -> result A * state.

Definition ret {A} (a : A) : M A := fun s => (Ok a, s).

Definition raise {A} (e : exn) : M A := fun s => (Raise e, s).

Definition bind {A B} (m : M A) (f : A -> M B) : M B :=
  fun s => match m s with
           | (Ok a, s') => f a s'
           | (Raise e, s') => (Raise e, s')
           end.

Definition lift {A} (r : result A) : M A := fun s => (r, s).

Declare Scope py_scope.
Delimit Scope py_scope with py.
Notation "x <- m ;; k" := (bind m (fun x => k))
  (at level 100, m at next level, right associativity) : py_scope.
Notation "m ;;; k" := (bind m (fun _ => k))
  (at level 100, right associativity) : py_scope.
Open Scope py_scope.

(** [for x in xs: body], stopping at the first exception. *)
Fixpoint for_each {A} (xs : list A) (body : A -> M unit) : M unit :=
  match xs with
  | [] => ret tt
  | x :: xs' => body x ;;; for_each xs' body
  end.

(** [enumerate(xs, start)] *)
Fixpoint enumerate {A} (start : nat) (xs : list A) : list (nat * A) :=
  match xs with
  | [] => []
  | x :: xs' => (start, x) :: enumerate (S start) xs'
  end.

Definition print (l : line) : M unit :=
  fun s => (Ok tt, with_line l s).

Definition trace_call (c : call) : M unit :=
  fun s => (Ok tt, with_call c s).

(** [response.json()] *)
Definition response_json {A} (r : response A) : M A :=
  match json r with
  | Some v => ret v
  | None => raise JSONDecodeError
  end.

(** ** The session *)

(** [session.query(Game).filter_by(id=i).first()]. The session autoflushes
    (the [sessionmaker] default), so rows staged earlier in the run are sent
    to the table before the query and are seen by it. *)
Definition session_query_first (i : Z) : M (option Game) :=
  fun s => (Ok (find (fun g => id g =? i) (db s ++ pending s)), s).

(** [session.add(game_entry)] *)
Definition session_add (g : Game) : M unit :=
  fun s => (Ok tt, staged g s).

(** [session.commit()] *)
Definition session_commit : M unit :=
  fun s => (Ok tt, committed s).

(** A fresh process over a table holding [rows]. *)
Definition initial_state (rows : list Game) : state := mkState rows [] [] [] [].

(** ** The fuzzy matcher *)

Section Matcher.

(** [str.lower] *)
Variable lower : string -> string.

(** [scorer query choice]: the score [process.extractOne] computes for a
    choice with [scorer=fuzz.token_sort_ratio]. *)
Variable token_sort_ratio : string -> string -> Z.

(** [process.extractWithoutOrder]: the (choice, score) pairs reaching the
    cutoff, in the order of the choices. *)
Definition extractWithoutOrder (query : string) (choices : list string)
    (score_cutoff : Z) : list (string * Z) :=
  filter (fun cs => score_cutoff <=? snd cs)
         (map (fun choice => (choice, token_sort_ratio query choice)) choices).

(** [max(best_list, key=lambda i: i[1])] given the best so far: a later pair
    replaces it only with a strictly greater score. *)
Fixpoint max_by_score (best : string * Z) (l : list (string * Z)) : string * Z :=
  match l with
  | [] => best
  | x :: l' => max_by_score (if snd best <? snd x then x else best) l'
  end.

(** [process.extractOne]: [None] when nothing is yielded ([max] of an empty
    sequence raises [ValueError], which the library turns into [None]). *)
Definition extractOne (query : string) (choices : list string) : option (string * Z) :=
  match extractWithoutOrder query choices 0 with
  | [] => None
  | x :: l => Some (max_by_score x l)
  end.

(** [match_app_id(name, app_dict, threshold)]. Unpacking
    [match, score = None] raises [TypeError]. *)
Definition match_app_id (name : string) (app_dict : dict) (threshold : Z)
    : result pyval :=
  let name_lower := lower name in
  if dict_contains name_lower app_dict then dict_getitem app_dict name_lower
  else
    match extractOne name_lower (dict_keys app_dict) with
    | Some (match_, score) =>
        if threshold <=? score then dict_getitem app_dict match_ else Ok PNone
    | None => Raise TypeError
    end.

Definition default_threshold : Z := 90.

End Matcher.

(** The [Game(...)] instance built from a catalog record and the two
    enrichment values. *)
Definition enriched (game : CatalogRecord) (appid count : pyval) : Game :=
  mkGame (c_id game) (c_title game) (c_thumbnail game)
         (c_short_description game) (c_game_url game) (c_genre game)
         (c_platform game) (c_publisher game) (c_developer game)
         (c_release_date game) (c_freetogame_profile_url game)
         appid count.

(** ** The pipeline *)

Section Pipeline.

Variable lower : string -> string.
Variable token_sort_ratio : string -> string -> Z.
Variable net : network.

(** [requests.get(url)] against the Steam endpoints. *)
Definition requests_get_steam (u : url) : M (response pyval) :=
  fun s => (Ok (steam_api net (http_log s) u), with_request u s).

(** [requests.get(url)] against the FreeToGame endpoint. *)
Definition requests_get_catalog (u : url) : M (response (list CatalogRecord)) :=
  fun s => (Ok (freetogame_api net (http_log s) u), with_request u s).

(** One item of [{app['name'].lower(): app['appid'] for app in app_list}]:
    the key expression is evaluated before the value expression. *)
Definition app_item (app : pyval) : result (string * pyval) :=
  match py_getitem app "name" with
  | Raise e => Raise e
  | Ok name =>
      match py_lower lower name with
      | Raise e => Raise e
      | Ok key =>
          match py_getitem app "appid" with
          | Raise e => Raise e
          | Ok value => Ok (key, value)
          end
      end
  end.

Fixpoint dict_comprehension (app_list : list pyval) (acc : dict) : result dict :=
  match app_list with
  | [] => Ok acc
  | app :: rest =>
      match app_item app with
      | Raise e => Raise e
      | Ok (key, value) => dict_comprehension rest (dict_set key value acc)
      end
  end.

Definition build_steam_app_dict : M dict :=
  response <- requests_get_steam STEAM_API_URL ;;
  if status_code response =? 200 then
    body <- response_json response ;;
    applist <- lift (py_get body "applist" (PDict [])) ;;
    app_list <- lift (py_get applist "apps" (PList [])) ;;
    apps <- lift (py_iter app_list) ;;
    lift (dict_comprehension apps [])
  else
    print (FailedSteamAppList (status_code response)) ;;;
    ret [].

(** The conditional expression evaluates its test
    ['player_count' in data['response']] first. *)
Definition get_steam_player_count (app_id : pyval) : M pyval :=
  if is_None app_id then ret PNone
  else
    response <- requests_get_steam (PLAYERS_URL app_id) ;;
    data <- response_json response ;;
    inner <- lift (py_getitem data "response") ;;
    present <- lift (py_in "player_count" inner) ;;
    if present : bool then
      inner' <- lift (py_getitem data "response") ;;
      lift (py_getitem inner' "player_count")
    else ret PNone.

Definition fetch_api (u : url) : M (option (list CatalogRecord)) :=
  response <- requests_get_catalog u ;;
  if status_code response =? 200 then
    data <- response_json response ;;
    ret (Some data)
  else
    print (FailedData (status_code response)) ;;;
    print (Text (text response)) ;;;
    ret None.

(** The body of the [for] loop of the script (lines 92 to 121). *)
Definition loop_body (steam_app_dict : dict) (total_games : nat)
    (item : nat * CatalogRecord) : M unit :=
  let (index, game) := item in
  existing_game <- session_query_first (c_id game) ;;
  match existing_game with
  | Some _ => ret tt
  | None =>
      let game_title := c_title game in
      trace_call (CallMatchAppId game_title) ;;;
      steam_appid <-
        lift (match_app_id lower token_sort_ratio game_title steam_app_dict
                           default_threshold) ;;
      steam_player_count <-
        (if truthy steam_appid
         then trace_call (CallGetSteamPlayerCount steam_appid) ;;;
              get_steam_player_count steam_appid
         else ret PNone) ;;
      let game_entry := enriched game steam_appid steam_player_count in
      session_add game_entry ;;;
      print (Processing index total_games (c_title game))
  end.

(** The loop over [enumerate(api_data, start=1)]. *)
Definition sync_loop (api_data : list CatalogRecord) (steam_app_dict : dict) : M unit :=
  let total_games := List.length api_data in
  for_each (enumerate 1 api_data) (loop_body steam_app_dict total_games).

(** The loop followed by the single [session.commit()]. *)
Definition sync (api_data : list CatalogRecord) (steam_app_dict : dict) : M unit :=
  sync_loop api_data steam_app_dict ;;;
  session_commit.

(** Lines 86 to 88: the catalog as the loop receives it. *)
Definition fetch_catalog : M (list CatalogRecord) :=
  api_data <- fetch_api API_URL ;;
  match api_data with
  | None => ret []
  | Some data => ret data
  end.

(** The script from line 85 to line 124. *)
Definition main : M unit :=
  steam_app_dict <- build_steam_app_dict ;;
  api_data <- fetch_catalog ;;
  sync api_data steam_app_dict.

End Pipeline.

(** ** Predicates used by the statements *)

(** The existence check of the loop as a boolean: a row with this id is in
    the table or staged in the session. *)
Definition store_has (s : state) (i : Z) : bool :=
  existsb (fun g => id g =? i) (db s ++ pending s).

(** A row whose Steam id is falsy carries no player count. *)
Definition count_needs_appid (g : Game) : Prop :=
  truthy (steam_appid g) = false -> steam_player_count g = PNone.

(** [app] is an entry of the upstream list with this name and appid. *)
Definition is_app_entry (app : pyval) (entry : string * pyval) : Prop :=
  py_getitem app "name" = Ok (PStr (fst entry)) /\
  py_getitem app "appid" = Ok (snd entry).

(** Written from the design document: the appid of the last entry, in list
    order, whose lower-cased name is [k]. *)
Fixpoint last_appid_of (lower : string -> string) (k : string)
    (entries : list (string * pyval)) : option pyval :=
  match entries with
  | [] => None
  | (name, appid) :: rest =>
      match last_appid_of lower k rest with
      | Some a => Some a
      | None => if String.eqb k (lower name) then Some appid else None
      end
  end.

(** ** Fixtures used to run the model on concrete inputs *)

Module Fixtures.

(** An instance of [str.lower] for the examples: it lower-cases the letters
    A to Z and so agrees with Python on strings of ASCII characters, the
    only ones the examples use. *)
Definition ascii_lower_char (c : ascii) : ascii :=
  let n := nat_of_ascii c in
  if (andb (Nat.leb 65 n) (Nat.leb n 90)) then ascii_of_nat (n + 32)%nat else c.

Fixpoint ascii_lower (s : string) : string :=
  match s with
  | EmptyString => EmptyString
  | String c s' => String (ascii_lower_char c) (ascii_lower s')
  end.

(** A scorer that rates two keys against any query. *)
Definition ratio_90 (query choice : string) : Z :=
  if String.eqb choice "path of exile 2" then 90
  else if String.eqb choice "exile" then 40
  else 0.

Definition ratio_89 (query choice : string) : Z :=
  if String.eqb choice "path of exile 2" then 89
  else if String.eqb choice "exile" then 40
  else 0.

Definition index_poe : dict := [("path of exile", PInt 238960)].

Definition index_poe2 : dict := [("exile", PInt 7); ("path of exile 2", PInt 2694490)].

Definition record (i : Z) (t : string) : CatalogRecord :=
  mkCatalogRecord i t "thumb" "short" "url" "MMORPG" "PC" "pub" "dev" "2013-10-23" "profile".

Definition row (i : Z) (t : string) (appid count : pyval) : Game :=
  mkGame i t "thumb" "short" "url" "MMORPG" "PC" "pub" "dev" "2013-10-23" "profile"
         appid count.

Definition app (name : string) (appid : Z) : pyval :=
  PDict [("appid", PInt appid); ("name", PStr name)].

Definition applist_body (apps : list pyval) : pyval :=
  PDict [("applist", PDict [("apps", PList apps)])].

(** A world where the app list holds [apps], the catalog holds [games] and
    every player-count request is answered with [players]. *)
Definition world (apps : response pyval) (games : response (list CatalogRecord))
    (players : response pyval) : network :=
  mkNetwork
    (fun _ u => match u with PLAYERS_URL _ => players | _ => apps end)
    (fun _ _ => games).

Definition ok_json {A} (v : A) : response A := mkResponse 200 EmptyString (Some v).

(** An HTTP 500 whose body is an HTML error page. *)
Definition server_error {A} : response A :=
  mkResponse 500 "<html>Internal Server Error</html>" None.

Definition players_1500 : response pyval :=
  ok_json (PDict [("response", PDict [("player_count", PInt 1500); ("result", PInt 1)])]).

(** Steam's answer for an unknown application: 404 with a JSON body. *)
Definition players_unknown : response pyval :=
  mkResponse 404 EmptyString (Some (PDict [("response", PDict [("result", PInt 42)])])).

End Fixtures.

(** ** The dashboard data *)

(** One entry of the [data] list handed to the table (lines 147 to 156). *)
Record TableRow : Type := mkTableRow {
  t_thumbnail : string;
  t_title : string;
  t_genre : string;
  t_platform : string;
  t_publisher : string;
  t_developer : string;
  t_release_date : string;
  t_steam_player_count : pyval
}.

(** [session.close()]: whatever is still staged is dropped. *)
Definition session_close : M unit :=
  fun s => (Ok tt, mkState (db s) [] (http_log s) (call_log s) (stdout s)).

Section Dashboard.

(** The order in which a [SELECT] without [ORDER BY] returns the rows is the
    database's choice. *)
Variable select_order : list Game -> list Game.

(** [session.query(Game).all()] *)
Definition session_query_all : M (list Game) :=
  fun s => (Ok (select_order (db s ++ pending s)), s).

Definition table_row (game : Game) : TableRow :=
  mkTableRow
    ("![" ++ title game ++ "](" ++ thumbnail game ++ ")")%string
    (title game) (genre game) (platform game) (publisher game)
    (developer game) (release_date game)
    (if is_None (steam_player_count game) then PStr "N/A"
     else steam_player_count game).

(** The list comprehension of lines 146 to 157. *)
Definition table_data : M (list TableRow) :=
  games <- session_query_all ;;
  ret (map table_row games).

End Dashboard.

(** The script from line 85 to the construction of the layout. *)
Definition script (lower : string -> string)
    (token_sort_ratio : string -> string -> Z) (net : network)
    (select_order : list Game -> list Game) : M (list TableRow) :=
  main lower token_sort_ratio net ;;;
  session_close ;;;
  table_data select_order.

(** ** More vocabulary for the statements *)

(** The catalog entries a traversal enriches, given the ids already in the
    store: an entry is taken when its id has not been seen, and is seen
    from then on. *)
Fixpoint fresh_items (seen : list Z) (items : list (nat * CatalogRecord))
    : list (nat * CatalogRecord) :=
  match items with
  | [] => []
  | item :: rest =>
      if existsb (fun j => j =? c_id (snd item)) seen
      then fresh_items seen rest
      else item :: fresh_items (seen ++ [c_id (snd item)]) rest
  end.

Definition progress_line (total : nat) (item : nat * CatalogRecord) : line :=
  Processing (fst item) total (c_title (snd item)).

(** The helper calls made for a staged row. *)
Definition calls_of (g : Game) : list call :=
  CallMatchAppId (title g) ::
  (if truthy (steam_appid g) then [CallGetSteamPlayerCount (steam_appid g)] else []).

(** The player-count requests made for a list of staged rows. *)
Definition requests_of (rows : list Game) : list url :=
  map PLAYERS_URL (filter truthy (map steam_appid rows)).

(** [row] is what the loop stages for [item] under the index [d]. *)
Definition staged_for (lower : string -> string)
    (token_sort_ratio : string -> string -> Z) (d : dict)
    (item : nat * CatalogRecord) (row : Game) : Prop :=
  exists appid count,
    match_app_id lower token_sort_ratio (c_title (snd item)) d default_threshold
      = Ok appid /\
    row = enriched (snd item) appid count /\
    (truthy appid = false -> count = PNone).

(** A list of names without its repetitions, each name at the place of its
    first occurrence. *)
Fixpoint first_occurrences (l : list string) : list string :=
  match l with
  | [] => []
  | x :: rest => x :: filter (fun y => negb (String.eqb x y)) (first_occurrences rest)
  end.

(** A sort by id, one order a database may return. *)
Fixpoint insert_by_id (g : Game) (l : list Game) : list Game :=
  match l with
  | [] => [g]
  | h :: t => if id g <=? id h then g :: h :: t else h :: insert_by_id g t
  end.

Definition sort_by_id (l : list Game) : list Game :=
  fold_right insert_by_id [] l.

(** ** Properties of dicts *)

Lemma dict_contains_get (k : string) (d : dict) :
  dict_contains k d = true <-> exists v, dict_get k d = Some v.
Proof.
  unfold dict_contains. destruct (dict_get k d) as [v|]; split.
  - intros _. now exists v.
  - reflexivity.
  - discriminate.
  - intros [v H]. discriminate.
Qed.

Lemma dict_get_in_keys (k : string) (d : dict) (v : pyval) :
  dict_get k d = Some v -> In k (dict_keys d).
Proof.
  induction d as [|[k' v'] d IH]; simpl; [discriminate|].
  destruct (String.eqb_spec k k') as [->|Hne]; auto.
Qed.

Lemma in_keys_dict_get (k : string) (d : dict) :
  In k (dict_keys d) -> exists v, dict_get k d = Some v.
Proof.
  induction d as [|[k' v'] d IH]; simpl; [tauto|].
  intros [->|Hin].
  - rewrite String.eqb_refl. eauto.
  - destruct (String.eqb k k'); eauto.
Qed.

(** ** Properties of the matcher *)

Section MatcherFacts.

Variable token_sort_ratio : string -> string -> Z.

(** [max] returns the first pair carrying the greatest score. *)
Lemma max_by_score_first (l : list (string * Z)) : forall best,
  let r := max_by_score best l in
  snd best <= snd r /\
  Forall (fun x => snd x <= snd r) l /\
  (snd best = snd r -> r = best) /\
  (snd best <> snd r -> find (fun x => snd x =? snd r) l = Some r).
Proof.
  induction l as [|x l IH]; intros best; simpl.
  - repeat split; auto; try lia.
  - specialize (IH (if snd best <? snd x then x else best)).
    destruct IH as (Hle & Hall & Heq & Hne).
    destruct (Z.ltb_spec (snd best) (snd x)) as [Hlt|Hge].
    + repeat split.
      * lia.
      * constructor; auto.
      * intros E. lia.
      * intros _. destruct (Z.eqb_spec (snd x) (snd (max_by_score x l))) as [E|E].
        -- now rewrite (Heq E).
        -- now apply Hne.
    + repeat split.
      * exact Hle.
      * constructor; auto. lia.
      * exact Heq.
      * intros E. destruct (Z.eqb_spec (snd x) (snd (max_by_score best l))) as [E'|E'].
        -- lia.
        -- now apply Hne.
Qed.

Lemma find_score_filter_map (query : string) (s : Z) (choices : list string) (m : string) :
  0 <= s ->
  find (fun x => snd x =? s) (extractWithoutOrder token_sort_ratio query choices 0)
    = Some (m, s) ->
  find (fun k => token_sort_ratio query k =? s) choices = Some m.
Proof.
  intros Hs. unfold extractWithoutOrder.
  induction choices as [|c choices IH]; simpl; [discriminate|].
  destruct (Z.leb_spec 0 (token_sort_ratio query c)) as [Hc|Hc]; simpl.
  - destruct (Z.eqb_spec (token_sort_ratio query c) s) as [E|E].
    + intros H. now inversion H.
    + exact IH.
  - destruct (Z.eqb_spec (token_sort_ratio query c) s) as [E|E]; [lia|exact IH].
Qed.

Lemma extractWithoutOrder_scores (query : string) (choices : list string) (x : string * Z) :
  In x (extractWithoutOrder token_sort_ratio query choices 0) ->
  In (fst x) choices /\ snd x = token_sort_ratio query (fst x) /\ 0 <= snd x.
Proof.
  unfold extractWithoutOrder. rewrite filter_In, in_map_iff.
  intros [[c [<- Hin]] Hcut]. simpl in *. repeat split; auto. lia.
Qed.

(** What [process.extractOne] returns: the first choice, in the order of the
    choices, among those with the greatest score. *)
Lemma extractOne_spec (query : string) (choices : list string) (m : string) (s : Z) :
  extractOne token_sort_ratio query choices = Some (m, s) ->
  find (fun k => token_sort_ratio query k =? s) choices = Some m /\
  Forall (fun k => token_sort_ratio query k <= s) choices.
Proof.
  unfold extractOne.
  destruct (extractWithoutOrder token_sort_ratio query choices 0) as [|x l] eqn:E;
    [discriminate|].
  intros H. inversion H as [Hr]. clear H.
  destruct (max_by_score_first l x) as (Hle & Hall & Heq & Hne). rewrite Hr in *.
  simpl in *.
  assert (Hin : In (m, s) (x :: l)).
  { destruct (Z.eq_dec (snd x) s) as [Es|Es].
    - left. symmetry. now apply Heq.
    - right. apply Hne in Es. now apply find_some in Es. }
  rewrite <- E in Hin.
  destruct (extractWithoutOrder_scores _ _ _ Hin) as (_ & _ & Hs). simpl in Hs.
  split.
  - apply find_score_filter_map; auto. rewrite E. simpl.
    destruct (Z.eqb_spec (snd x) s) as [Es|Es].
    + now rewrite (Heq Es).
    + now apply Hne.
  - rewrite Forall_forall. intros k Hk.
    destruct (Z.leb_spec 0 (token_sort_ratio query k)) as [Hc|Hc]; [|lia].
    assert (Hink : In (k, token_sort_ratio query k) (x :: l)).
    { rewrite <- E. unfold extractWithoutOrder. rewrite filter_In. split.
      - apply in_map_iff. now exists k.
      - simpl. now apply Z.leb_le. }
    destruct Hink as [Hx|Hink].
    + rewrite Hx in Hle. exact Hle.
    + rewrite Forall_forall in Hall. now apply (Hall _ Hink).
Qed.

(** A choice that reaches the cutoff makes [extractOne] return a pair. *)
Lemma extractOne_some (query : string) (choices : list string) (k : string) :
  In k choices -> 0 <= token_sort_ratio query k ->
  exists m s, extractOne token_sort_ratio query choices = Some (m, s).
Proof.
  intros Hin Hk. unfold extractOne.
  destruct (extractWithoutOrder token_sort_ratio query choices 0) as [|x l] eqn:E.
  - exfalso. assert (H : In (k, token_sort_ratio query k) []).
    { rewrite <- E. unfold extractWithoutOrder. rewrite filter_In. split.
      - apply in_map_iff. now exists k.
      - simpl. now apply Z.leb_le. }
    exact H.
  - destruct (max_by_score x l) as [m s]. eauto.
Qed.

End MatcherFacts.

(** C4. A title whose lower-cased form is a key of the index resolves to
    that key's value, whatever the threshold and whatever the scorer says
    about the other keys. *)
Theorem C4_exact_match_priority (lower : string -> string)
    (token_sort_ratio : string -> string -> Z)
    (name : string) (app_dict : dict) (threshold : Z) (v : pyval) :
  dict_get (lower name) app_dict = Some v ->
  match_app_id lower token_sort_ratio name app_dict threshold = Ok v.
Proof.
  intros H. unfold match_app_id, dict_contains, dict_getitem.
  now rewrite H.
Qed.

Lemma C4_exact_match_priority_witness :
  match_app_id Fixtures.ascii_lower Fixtures.ratio_90 "EXILE" Fixtures.index_poe2 200 = Ok (PInt 7).
Proof.
  apply (C4_exact_match_priority Fixtures.ascii_lower Fixtures.ratio_90 "EXILE"
      Fixtures.index_poe2 200 (PInt 7)).
  reflexivity.
Defined.

(** C5. With no exact key and the default threshold, a best score of
    exactly 90 yields the value of the best key (the first key, in the
    index's order, that scores 90) and a best score of 89 yields [None]. *)
Theorem C5_threshold_boundary (lower : string -> string) (token_sort_ratio : string -> string -> Z)
    (name : string) (app_dict : dict) (best : string) :
  dict_contains (lower name) app_dict = false ->
  In best (dict_keys app_dict) ->
  Forall (fun k => token_sort_ratio (lower name) k <= token_sort_ratio (lower name) best)
         (dict_keys app_dict) ->
  (token_sort_ratio (lower name) best = 90 ->
   exists m v,
     find (fun k => token_sort_ratio (lower name) k =? 90) (dict_keys app_dict) = Some m /\
     dict_get m app_dict = Some v /\
     match_app_id lower token_sort_ratio name app_dict default_threshold = Ok v) /\
  (token_sort_ratio (lower name) best = 89 ->
   match_app_id lower token_sort_ratio name app_dict default_threshold = Ok PNone).
Proof.
  intros Hno Hin Hmax.
  assert (Hbest : forall b, token_sort_ratio (lower name) best = b -> 0 <= b ->
            exists m, extractOne token_sort_ratio (lower name) (dict_keys app_dict) = Some (m, b)
                      /\ find (fun k => token_sort_ratio (lower name) k =? b)
                              (dict_keys app_dict) = Some m).
  { intros b Hb Hpos.
    destruct (extractOne_some token_sort_ratio (lower name) (dict_keys app_dict) best Hin)
      as (m & s & E); [lia|].
    destruct (extractOne_spec _ _ _ _ _ E) as (Hfind & Hall).
    assert (s = b).
    { destruct (find_some _ _ Hfind) as (Hm & Hs). apply Z.eqb_eq in Hs.
      rewrite Forall_forall in Hmax, Hall.
      specialize (Hmax _ Hm). specialize (Hall _ Hin). lia. }
    subst s. eauto. }
  unfold match_app_id, default_threshold. rewrite Hno. split; intros Hs.
  - destruct (Hbest 90 Hs) as (m & E & Hfind); [lia|].
    destruct (find_some _ _ Hfind) as (Hm & _).
    destruct (in_keys_dict_get _ _ Hm) as (v & Hv).
    exists m, v. rewrite E. simpl. unfold dict_getitem. rewrite Hv. auto.
  - destruct (Hbest 89 Hs) as (m & E & _); [lia|].
    rewrite E. reflexivity.
Qed.

Lemma C5_threshold_boundary_witness :
  (exists m v,
     find (fun k => Fixtures.ratio_90 (Fixtures.ascii_lower "Path of Exile II") k =? 90)
          (dict_keys Fixtures.index_poe2) = Some m /\
     dict_get m Fixtures.index_poe2 = Some v /\
     match_app_id Fixtures.ascii_lower Fixtures.ratio_90 "Path of Exile II" Fixtures.index_poe2
                  default_threshold = Ok v) /\
  match_app_id Fixtures.ascii_lower Fixtures.ratio_89 "Path of Exile II" Fixtures.index_poe2
               default_threshold = Ok PNone.
Proof.
  split.
  - apply (C5_threshold_boundary Fixtures.ascii_lower Fixtures.ratio_90 "Path of Exile II"
             Fixtures.index_poe2 "path of exile 2").
    + reflexivity.
    + simpl. auto.
    + repeat constructor; apply Z.leb_le; reflexivity.
    + reflexivity.
  - apply (C5_threshold_boundary Fixtures.ascii_lower Fixtures.ratio_89 "Path of Exile II"
             Fixtures.index_poe2 "path of exile 2").
    + reflexivity.
    + simpl. auto.
    + repeat constructor; apply Z.leb_le; reflexivity.
    + reflexivity.
Defined.

(** ** Properties of the loop *)

Lemma find_of_existsb {A} (f : A -> bool) (l : list A) :
  existsb f l = true -> exists x, find f l = Some x.
Proof.
  induction l as [|a l IH]; simpl; [discriminate|].
  destruct (f a); eauto.
Qed.

Lemma find_of_not_existsb {A} (f : A -> bool) (l : list A) :
  existsb f l = false -> find f l = None.
Proof.
  induction l as [|a l IH]; simpl; [reflexivity|].
  destruct (f a); [discriminate|exact IH].
Qed.

Lemma store_has_app (s : state) (i : Z) :
  store_has s i = existsb (fun g => id g =? i) (db s) || existsb (fun g => id g =? i) (pending s).
Proof. unfold store_has. apply existsb_app. Qed.

Section LoopFacts.

Variable lower : string -> string.
Variable token_sort_ratio : string -> string -> Z.
Variable net : network.

(** The fetcher touches nothing but the request log, and that only for an
    id other than [None]. *)
Lemma get_steam_player_count_state (app_id : pyval) (s : state) :
  snd (get_steam_player_count net app_id s)
  = if is_None app_id then s else with_request (PLAYERS_URL app_id) s.
Proof.
  unfold get_steam_player_count. destruct (is_None app_id); [reflexivity|].
  unfold bind, requests_get_steam, response_json, lift, ret, raise.
  destruct (json _) as [data|]; [|reflexivity].
  destruct (py_getitem data "response") as [inner|e]; [|reflexivity].
  destruct (py_in "player_count" inner) as [[|]|e]; reflexivity.
Qed.

(** A record whose id is in the store: the body is a no-op. *)
Lemma loop_body_stored (d : dict) (total index : nat) (game : CatalogRecord) (s : state) :
  store_has s (c_id game) = true ->
  loop_body lower token_sort_ratio net d total (index, game) s = (Ok tt, s).
Proof.
  intros H. apply find_of_existsb in H. destruct H as [g Hg].
  unfold loop_body, bind, session_query_first. now rewrite Hg.
Qed.

(** A record whose id is not in the store: the body unfolded. *)
Lemma loop_body_new (d : dict) (total index : nat) (game : CatalogRecord) (s : state) :
  store_has s (c_id game) = false ->
  loop_body lower token_sort_ratio net d total (index, game) s =
  let s1 := with_call (CallMatchAppId (c_title game)) s in
  match match_app_id lower token_sort_ratio (c_title game) d default_threshold with
  | Raise e => (Raise e, s1)
  | Ok appid =>
      if truthy appid then
        match get_steam_player_count net appid (with_call (CallGetSteamPlayerCount appid) s1) with
        | (Ok count, s2) =>
            (Ok tt, with_line (Processing index total (c_title game))
                              (staged (enriched game appid count) s2))
        | (Raise e, s2) => (Raise e, s2)
        end
      else
        (Ok tt, with_line (Processing index total (c_title game))
                          (staged (enriched game appid PNone) s1))
  end.
Proof.
  intros H. apply find_of_not_existsb in H.
  unfold loop_body, bind at 1, session_query_first. rewrite H.
  unfold bind, trace_call, lift, ret, session_add, print. simpl.
  destruct (match_app_id _ _ _ _) as [appid|e]; [|reflexivity].
  destruct (truthy appid); [|reflexivity].
  destruct (get_steam_player_count net appid _) as [[count|e] s2]; reflexivity.
Qed.

(** What one iteration may do to the store: the table is untouched, rows
    are only added to the session, each added row has a player count only
    under a truthy Steam id, and after a normal exit the record's id is in
    the store. *)
Lemma loop_body_effect (d : dict) (total : nat) (item : nat * CatalogRecord)
    (s s' : state) (r : result unit) :
  loop_body lower token_sort_ratio net d total item s = (r, s') ->
  db s' = db s /\
  (exists extra, pending s' = pending s ++ extra /\ Forall count_needs_appid extra) /\
  (r = Ok tt -> store_has s' (c_id (snd item)) = true).
Proof.
  destruct item as [index game]. cbn [snd].
  destruct (store_has s (c_id game)) eqn:Hs.
  - rewrite loop_body_stored by exact Hs. intros H. inversion H; subst.
    repeat split; auto. exists []. now rewrite app_nil_r.
  - rewrite loop_body_new by exact Hs. cbv zeta.
    destruct (match_app_id _ _ _ _) as [appid|e].
    + destruct (truthy appid) eqn:Ht.
      * pose proof (get_steam_player_count_state appid
          (with_call (CallGetSteamPlayerCount appid)
             (with_call (CallMatchAppId (c_title game)) s))) as Hst.
        destruct (get_steam_player_count net appid _) as [[count|e] s2]; simpl in Hst;
          intros H; inversion H; subst; clear H;
          destruct (is_None appid); simpl.
        all: repeat split; auto; try discriminate.
        all: try (exists [enriched game appid count]; split; [reflexivity|];
                  constructor; [|constructor]; unfold count_needs_appid; simpl; congruence).
        all: try (exists []; now rewrite app_nil_r).
        all: intros _; rewrite store_has_app; simpl; rewrite existsb_app; simpl;
             rewrite Z.eqb_refl; rewrite orb_true_r; simpl; now rewrite !orb_true_r.
      * intros H. inversion H; subst; clear H. simpl. repeat split; auto.
        -- exists [enriched game appid PNone]. split; [reflexivity|].
           constructor; [|constructor]. unfold count_needs_appid. reflexivity.
        -- intros _. rewrite store_has_app. simpl. rewrite existsb_app. simpl.
           rewrite Z.eqb_refl. simpl. now rewrite !orb_true_r.
    + intros H. inversion H; subst. simpl. repeat split; auto; try discriminate.
      exists []. now rewrite app_nil_r.
Qed.

End LoopFacts.

Arguments loop_body : simpl never.

Section RunFacts.

Variable lower : string -> string.
Variable token_sort_ratio : string -> string -> Z.
Variable net : network.

(** The store only grows along an iteration. *)
Lemma store_has_grows (s s' : state) (extra : list Game) (i : Z) :
  db s' = db s -> pending s' = pending s ++ extra ->
  store_has s i = true -> store_has s' i = true.
Proof.
  intros Hdb Hp. rewrite !store_has_app, Hdb, Hp, existsb_app.
  destruct (existsb _ (db s)); simpl; [reflexivity|]. intros ->. reflexivity.
Qed.

(** When every id is in the store the whole traversal is a no-op. *)
Lemma for_each_all_stored (d : dict) (total : nat) (items : list (nat * CatalogRecord))
    (s : state) :
  Forall (fun item => store_has s (c_id (snd item)) = true) items ->
  for_each items (loop_body lower token_sort_ratio net d total) s = (Ok tt, s).
Proof.
  induction 1 as [|[index game] items Hx _ IH]; simpl; [reflexivity|].
  unfold bind. rewrite loop_body_stored by exact Hx. exact IH.
Qed.

(** The effect of a traversal on the store. *)
Lemma for_each_effect (d : dict) (total : nat) (items : list (nat * CatalogRecord)) :
  forall (s s' : state) (r : result unit),
  for_each items (loop_body lower token_sort_ratio net d total) s = (r, s') ->
  db s' = db s /\
  (exists extra, pending s' = pending s ++ extra /\ Forall count_needs_appid extra) /\
  (r = Ok tt -> Forall (fun item => store_has s' (c_id (snd item)) = true) items).
Proof.
  induction items as [|item items IH]; intros s s' r; simpl.
  - intros H. inversion H; subst. repeat split; auto.
    exists []. now rewrite app_nil_r.
  - unfold bind.
    destruct (loop_body lower token_sort_ratio net d total item s) as [[[]|e] s1] eqn:E1.
    + destruct (loop_body_effect _ _ _ _ _ _ _ _ _ E1) as (Hdb1 & (x1 & Hp1 & Hc1) & Hin1).
      intros E2. destruct (IH _ _ _ E2) as (Hdb2 & (x2 & Hp2 & Hc2) & Hin2).
      split; [congruence|]. split.
      * exists (x1 ++ x2). split.
        -- now rewrite Hp2, Hp1, app_assoc.
        -- apply Forall_app. auto.
      * intros Hr. constructor; auto.
        eapply store_has_grows; eauto.
    + destruct (loop_body_effect _ _ _ _ _ _ _ _ _ E1) as (Hdb1 & Hx1 & _).
      intros H. inversion H; subst. repeat split; auto. discriminate.
Qed.

(** Records already stored when the traversal starts can be dropped from
    the catalog without changing the run. *)
Lemma for_each_skips_stored (d : dict) (total : nat) (s0 : state)
    (items : list (nat * CatalogRecord)) :
  forall s : state,
  (forall i, store_has s0 i = true -> store_has s i = true) ->
  for_each items (loop_body lower token_sort_ratio net d total) s
  = for_each (filter (fun item => negb (store_has s0 (c_id (snd item)))) items)
             (loop_body lower token_sort_ratio net d total) s.
Proof.
  induction items as [|[index game] items IH]; intros s Hs; simpl; [reflexivity|].
  destruct (store_has s0 (c_id game)) eqn:E0; simpl.
  - unfold bind at 1. rewrite loop_body_stored by (apply Hs; exact E0).
    apply IH. exact Hs.
  - unfold bind.
    destruct (loop_body lower token_sort_ratio net d total (index, game) s) as [[[]|e] s1] eqn:E1;
      [|reflexivity].
    destruct (loop_body_effect _ _ _ _ _ _ _ _ _ E1) as (Hdb1 & (x1 & Hp1 & _) & _).
    apply IH. intros i Hi. eapply store_has_grows; eauto.
Qed.

(** The index builder sends one request and touches nothing else but the
    output. *)
Lemma build_steam_app_dict_state (s : state) :
  let s' := snd (build_steam_app_dict lower net s) in
  db s' = db s /\ pending s' = pending s /\ call_log s' = call_log s /\
  http_log s' = http_log s ++ [STEAM_API_URL].
Proof.
  unfold build_steam_app_dict, bind, requests_get_steam, response_json, lift, ret,
    raise, print.
  destruct (status_code _ =? 200); [|simpl; auto].
  destruct (json _) as [body|]; [|simpl; auto].
  destruct (py_get body "applist" (PDict [])) as [applist|]; [|simpl; auto].
  destruct (py_get applist "apps" (PList [])) as [app_list|]; [|simpl; auto].
  destruct (py_iter app_list) as [apps|]; simpl; auto.
Qed.

End RunFacts.

(** ** Properties of the index builder *)

Lemma dict_get_set_same (k : string) (v : pyval) (d : dict) :
  dict_get k (dict_set k v d) = Some v.
Proof.
  induction d as [|[k' v'] d IH]; simpl.
  - now rewrite String.eqb_refl.
  - destruct (String.eqb k k') eqn:E; simpl; rewrite E; auto.
Qed.

Lemma dict_get_set_other (k k' : string) (v : pyval) (d : dict) :
  k <> k' -> dict_get k (dict_set k' v d) = dict_get k d.
Proof.
  intros Hne. induction d as [|[k0 v0] d IH]; simpl.
  - destruct (String.eqb_spec k k'); [contradiction|reflexivity].
  - destruct (String.eqb_spec k' k0) as [->|H0]; simpl.
    + destruct (String.eqb_spec k k0); [contradiction|reflexivity].
    + destruct (String.eqb k k0); auto.
Qed.

Lemma dict_keys_set (k : string) (v : pyval) (d : dict) :
  dict_keys (dict_set k v d)
  = if dict_contains k d then dict_keys d else dict_keys d ++ [k].
Proof.
  unfold dict_contains. induction d as [|[k' v'] d IH]; simpl; [reflexivity|].
  destruct (String.eqb k k'); simpl; [reflexivity|].
  rewrite IH. destruct (dict_get k d); reflexivity.
Qed.

Lemma dict_set_NoDup (k : string) (v : pyval) (d : dict) :
  NoDup (dict_keys d) -> NoDup (dict_keys (dict_set k v d)).
Proof.
  intros H. rewrite dict_keys_set. destruct (dict_contains k d) eqn:E; [exact H|].
  apply NoDup_app; auto.
  - constructor; [intros []|constructor].
  - intros x Hx [<-|[]].
    destruct (in_keys_dict_get _ _ Hx) as [w Hw].
    unfold dict_contains in E. rewrite Hw in E. discriminate.
Qed.

(** The comprehension over well-formed entries: later entries overwrite
    earlier ones and the accumulator keeps its other keys. *)
Lemma dict_comprehension_last (lower : string -> string)
    (apps : list pyval) (entries : list (string * pyval)) :
  Forall2 is_app_entry apps entries ->
  forall acc : dict,
  exists d,
    dict_comprehension lower apps acc = Ok d /\
    (forall k, dict_get k d = match last_appid_of lower k entries with
                              | Some a => Some a
                              | None => dict_get k acc
                              end) /\
    (NoDup (dict_keys acc) -> NoDup (dict_keys d)).
Proof.
  induction 1 as [|app [name appid] apps entries [Hn Ha] _ IH]; intros acc; simpl.
  - exists acc. auto.
  - unfold app_item. simpl in Hn, Ha. rewrite Hn. simpl. rewrite Ha.
    destruct (IH (dict_set (lower name) appid acc)) as (d & Hd & Hget & Hnd).
    exists d. split; [exact Hd|]. split.
    + intros k. rewrite Hget. destruct (last_appid_of lower k entries); [reflexivity|].
      destruct (String.eqb_spec k (lower name)) as [->|Hne].
      * apply dict_get_set_same.
      * now apply dict_get_set_other.
    + intros Hacc. apply Hnd. now apply dict_set_NoDup.
Qed.

(** ** The scenarios of the design document, run on the model *)

(** Catalog with Path of Exile, index with its exact name, 1500 players. *)
Example scenario_exact_match :
  let net := Fixtures.world
               (Fixtures.ok_json (Fixtures.applist_body [Fixtures.app "Path of Exile" 238960]))
               (Fixtures.ok_json [Fixtures.record 1 "Path of Exile"])
               Fixtures.players_1500 in
  main Fixtures.ascii_lower Fixtures.ratio_90 net (initial_state [])
  = (Ok tt,
     mkState [Fixtures.row 1 "Path of Exile" (PInt 238960) (PInt 1500)] []
             [STEAM_API_URL; API_URL; PLAYERS_URL (PInt 238960)]
             [CallMatchAppId "Path of Exile"; CallGetSteamPlayerCount (PInt 238960)]
             [Processing 1 1 "Path of Exile"]).
Proof. reflexivity. Qed.

(** No close match: both enrichment fields stay [None]. *)
Example scenario_no_match :
  let net := Fixtures.world
               (Fixtures.ok_json (Fixtures.applist_body [Fixtures.app "Exile" 7]))
               (Fixtures.ok_json [Fixtures.record 2 "Totally Unknown Game XYZ"])
               Fixtures.players_1500 in
  main Fixtures.ascii_lower Fixtures.ratio_90 net (initial_state [])
  = (Ok tt,
     mkState [Fixtures.row 2 "Totally Unknown Game XYZ" PNone PNone] []
             [STEAM_API_URL; API_URL]
             [CallMatchAppId "Totally Unknown Game XYZ"]
             [Processing 1 1 "Totally Unknown Game XYZ"]).
Proof. reflexivity. Qed.

(** ** The claims *)

(** C1. Idempotence: once a run of [sync] has completed and committed, a
    second run over the same catalog and the resulting table stages
    nothing, sends no request, calls no helper and leaves the table as it
    is, whatever index and network the second run sees. *)
Theorem C1_sync_idempotent (lower : string -> string)
    (ratio1 ratio2 : string -> string -> Z) (net1 net2 : network)
    (catalog : list CatalogRecord) (index1 index2 : dict) (s0 s1 s2 : state) :
  sync lower ratio1 net1 catalog index1 s0 = (Ok tt, s1) ->
  db s2 = db s1 -> pending s2 = [] ->
  sync_loop lower ratio2 net2 catalog index2 s2 = (Ok tt, s2) /\
  sync lower ratio2 net2 catalog index2 s2 = (Ok tt, s2).
Proof.
  intros Hrun Hdb Hp. unfold sync, bind in Hrun.
  destruct (sync_loop lower ratio1 net1 catalog index1 s0) as [[[]|e] s1'] eqn:E1;
    [|discriminate].
  unfold session_commit in Hrun. inversion Hrun as [Hs1]. clear Hrun.
  unfold sync_loop in E1.
  destruct (for_each_effect _ _ _ _ _ _ _ _ _ E1) as (_ & _ & Hall).
  specialize (Hall eq_refl).
  assert (Hloop : sync_loop lower ratio2 net2 catalog index2 s2 = (Ok tt, s2)).
  { unfold sync_loop. apply for_each_all_stored.
    eapply Forall_impl; [|exact Hall]. intros item Hitem. simpl in Hitem.
    unfold store_has in *. rewrite Hdb, Hp, app_nil_r, <- Hs1. exact Hitem. }
  split; [exact Hloop|].
  unfold sync, bind. rewrite Hloop. unfold session_commit, committed.
  destruct s2 as [d2 p2 h2 c2 o2]. simpl in *. subst p2. now rewrite app_nil_r.
Qed.

Lemma C1_sync_idempotent_witness :
  let net := Fixtures.world Fixtures.server_error Fixtures.server_error Fixtures.players_1500 in
  let catalog := [Fixtures.record 1 "Path of Exile"; Fixtures.record 2 "Unknown"] in
  let s1 := snd (sync Fixtures.ascii_lower Fixtures.ratio_90 net catalog Fixtures.index_poe
      (initial_state [])) in
  sync_loop Fixtures.ascii_lower Fixtures.ratio_89 net catalog [] (initial_state (db s1))
    = (Ok tt, initial_state (db s1)) /\
  sync Fixtures.ascii_lower Fixtures.ratio_89 net catalog [] (initial_state (db s1))
    = (Ok tt, initial_state (db s1)).
Proof.
  intros net catalog s1.
  apply (C1_sync_idempotent Fixtures.ascii_lower Fixtures.ratio_90 Fixtures.ratio_89 net net catalog
           Fixtures.index_poe [] (initial_state []) s1 (initial_state (db s1))).
  - reflexivity.
  - reflexivity.
  - reflexivity.
Defined.

(** C6. A catalog record whose id is already in the store is skipped: its
    iteration leaves the whole state as it was (no helper call, no request,
    nothing staged, nothing printed), and dropping such records from the
    catalog does not change the run. *)
Theorem C6_stored_record_skipped (lower : string -> string)
    (token_sort_ratio : string -> string -> Z) (net : network) (steam_app_dict : dict) :
  (forall (total index : nat) (game : CatalogRecord) (s : state),
     store_has s (c_id game) = true ->
     loop_body lower token_sort_ratio net steam_app_dict total (index, game) s = (Ok tt, s)) /\
  (forall (api_data : list CatalogRecord) (s : state),
     sync_loop lower token_sort_ratio net api_data steam_app_dict s
     = for_each (filter (fun item => negb (store_has s (c_id (snd item))))
                        (enumerate 1 api_data))
                (loop_body lower token_sort_ratio net steam_app_dict (List.length api_data)) s).
Proof.
  split.
  - intros total index game s H. now apply loop_body_stored.
  - intros api_data s. unfold sync_loop. apply for_each_skips_stored. auto.
Qed.

Lemma C6_stored_record_skipped_witness :
  let net := Fixtures.world Fixtures.server_error Fixtures.server_error Fixtures.players_1500 in
  let s := initial_state [Fixtures.row 42 "Path of Exile" PNone PNone] in
  loop_body Fixtures.ascii_lower Fixtures.ratio_90 net Fixtures.index_poe 1 (1%nat,
      Fixtures.record 42 "Path of Exile") s
  = (Ok tt, s).
Proof.
  intros net s.
  apply (proj1 (C6_stored_record_skipped Fixtures.ascii_lower Fixtures.ratio_90 net
      Fixtures.index_poe)).
  reflexivity.
Defined.

(** C7. The player-count fetch on [None] returns [None] and leaves the
    state, hence the request log, untouched; [None] is the only id for
    which no request is sent. *)
Theorem C7_absent_id_short_circuit (net : network) (s : state) :
  get_steam_player_count net PNone s = (Ok PNone, s) /\
  forall app_id : pyval,
    http_log (snd (get_steam_player_count net app_id s))
    = if is_None app_id then http_log s else http_log s ++ [PLAYERS_URL app_id].
Proof.
  split.
  - reflexivity.
  - intros app_id. rewrite get_steam_player_count_state.
    destruct (is_None app_id); reflexivity.
Qed.

(** C10. A record resolved to a falsy Steam id ([None], [0], ...) is staged
    with player count [None] and without any request; and along a run
    every row of the store keeps the invariant that a player count other
    than [None] comes with a Steam id that is truthy, hence neither [None]
    nor [0]. *)
Theorem C10_count_requires_appid (lower : string -> string)
    (token_sort_ratio : string -> string -> Z) (net : network) (steam_app_dict : dict) :
  (forall (total index : nat) (game : CatalogRecord) (s : state) (appid : pyval),
     store_has s (c_id game) = false ->
     match_app_id lower token_sort_ratio (c_title game) steam_app_dict default_threshold = Ok
         appid ->
     truthy appid = false ->
     exists s',
       loop_body lower token_sort_ratio net steam_app_dict total (index, game) s = (Ok tt, s') /\
       pending s' = pending s ++ [enriched game appid PNone] /\
       http_log s' = http_log s /\
       call_log s' = call_log s ++ [CallMatchAppId (c_title game)]) /\
  (forall (api_data : list CatalogRecord) (s s' : state) (r : result unit),
     Forall count_needs_appid (db s ++ pending s) ->
     sync lower token_sort_ratio net api_data steam_app_dict s = (r, s') ->
     Forall (fun g => steam_player_count g <> PNone ->
                      truthy (steam_appid g) = true /\
                      steam_appid g <> PNone /\ steam_appid g <> PInt 0)
            (db s' ++ pending s')).
Proof.
  split.
  - intros total index game s appid Hs Hm Ht.
    rewrite loop_body_new by exact Hs. cbv zeta. rewrite Hm, Ht.
    eexists. split; [reflexivity|]. simpl. auto.
  - intros api_data s s' r Hinv Hrun.
    assert (Hall : Forall count_needs_appid (db s' ++ pending s')).
    { unfold sync, bind in Hrun.
      destruct (sync_loop lower token_sort_ratio net api_data steam_app_dict s)
        as [[[]|e] s1] eqn:E1;
        unfold sync_loop in E1;
        destruct (for_each_effect _ _ _ _ _ _ _ _ _ E1) as (Hdb & (extra & Hp & Hx) & _);
        inversion Hrun; subst; clear Hrun; simpl.
      - rewrite app_nil_r, Hdb, Hp, app_assoc. apply Forall_app. auto.
      - rewrite Hdb, Hp, app_assoc. apply Forall_app. auto. }
    eapply Forall_impl; [|exact Hall].
    intros g Hg Hcount. unfold count_needs_appid in Hg.
    destruct (truthy (steam_appid g)) eqn:Ht.
    + repeat split; intros E; rewrite E in Ht; discriminate.
    + exfalso. apply Hcount. now apply Hg.
Qed.

Lemma C10_count_requires_appid_witness :
  let net := Fixtures.world Fixtures.server_error Fixtures.server_error Fixtures.players_1500 in
  let index := [("free game", PInt 0)] in
  let game := Fixtures.record 5 "Free Game" in
  (exists s',
     loop_body Fixtures.ascii_lower Fixtures.ratio_90 net index 1 (1%nat, game) (initial_state
         []) = (Ok tt, s') /\
     pending s' = [enriched game (PInt 0) PNone] /\
     http_log s' = [] /\
     call_log s' = [CallMatchAppId "Free Game"]) /\
  (let s' := snd (sync Fixtures.ascii_lower Fixtures.ratio_90 net [game] index (initial_state
      [])) in
   Forall (fun g => steam_player_count g <> PNone ->
                    truthy (steam_appid g) = true /\
                    steam_appid g <> PNone /\ steam_appid g <> PInt 0)
          (db s' ++ pending s')).
Proof.
  intros net index game. split.
  - apply (proj1 (C10_count_requires_appid Fixtures.ascii_lower Fixtures.ratio_90 net index)
      1%nat 1%nat game
             (initial_state []) (PInt 0)); reflexivity.
  - intros s'.
    apply (proj2 (C10_count_requires_appid Fixtures.ascii_lower Fixtures.ratio_90 net index) [game]
             (initial_state []) s' (Ok tt)).
    + constructor.
    + reflexivity.
Defined.

(** C8. When the catalog request is answered with a status other than 200,
    [fetch_api] returns [None], which lines 87 and 88 turn into the empty
    list; the loop over it does nothing; and the run ends with the table
    exactly as it found it, nothing staged and no helper called. When the
    index builder did not raise, the run ends normally after its two
    start-up requests. *)
Theorem C8_failed_catalog_is_noop (lower : string -> string)
    (token_sort_ratio : string -> string -> Z) (net : network) (rows : list Game) :
  status_code (freetogame_api net [STEAM_API_URL] API_URL) <> 200 ->
  (forall s, http_log s = [STEAM_API_URL] ->
     exists s',
       fetch_api net API_URL s = (Ok None, s') /\
       fetch_catalog net s = (Ok [], s') /\
       db s' = db s /\ pending s' = pending s /\ call_log s' = call_log s /\
       forall d, sync_loop lower token_sort_ratio net [] d s' = (Ok tt, s')) /\
  (let (r, s') := main lower token_sort_ratio net (initial_state rows) in
   db s' = rows /\ pending s' = [] /\ call_log s' = [] /\
   forall d s1, build_steam_app_dict lower net (initial_state rows) = (Ok d, s1) ->
                r = Ok tt /\ http_log s' = [STEAM_API_URL; API_URL]).
Proof.
  intros Hstatus.
  assert (Hfetch : forall s, http_log s = [STEAM_API_URL] ->
            fetch_api net API_URL s
            = (Ok None,
               with_line (Text (text (freetogame_api net [STEAM_API_URL] API_URL)))
                 (with_line (FailedData (status_code (freetogame_api net [STEAM_API_URL] API_URL)))
                    (with_request API_URL s)))).
  { intros s Hlog. unfold fetch_api, bind, requests_get_catalog. rewrite Hlog.
    apply Z.eqb_neq in Hstatus. rewrite Hstatus. reflexivity. }
  split.
  - intros s Hlog. eexists. split; [apply Hfetch; exact Hlog|].
    split; [unfold fetch_catalog, bind; rewrite Hfetch by exact Hlog; reflexivity|].
    simpl. auto.
  - unfold main, bind.
    pose proof (build_steam_app_dict_state lower net (initial_state rows)) as Hb.
    destruct (build_steam_app_dict lower net (initial_state rows)) as [[d|e] s1];
      simpl in Hb; destruct Hb as (Hdb & Hp & Hc & Hh).
    + unfold fetch_catalog, bind. rewrite Hfetch by exact Hh. simpl.
      rewrite Hdb, Hp, Hc, Hh, app_nil_r. repeat split; reflexivity.
    + repeat split; auto; discriminate.
Qed.

Lemma C8_failed_catalog_is_noop_witness :
  let net := Fixtures.world
               (Fixtures.ok_json (Fixtures.applist_body [Fixtures.app "Path of Exile" 238960]))
               Fixtures.server_error Fixtures.players_1500 in
  let rows := [Fixtures.row 42 "Path of Exile" (PInt 238960) (PInt 1500)] in
  let (r, s') := main Fixtures.ascii_lower Fixtures.ratio_90 net (initial_state rows) in
  db s' = rows /\ pending s' = [] /\ call_log s' = [] /\
  forall d s1, build_steam_app_dict Fixtures.ascii_lower net (initial_state rows) = (Ok d, s1) ->
               r = Ok tt /\ http_log s' = [STEAM_API_URL; API_URL].
Proof.
  intros net rows.
  refine (proj2 (C8_failed_catalog_is_noop Fixtures.ascii_lower Fixtures.ratio_90 net rows _)).
  simpl. lia.
Defined.

(** C2. On the empty index [match_app_id] does not return [None]:
    [process.extractOne] has nothing to choose from and returns [None],
    and unpacking it raises [TypeError], for every title and threshold.
    So a run whose app-list request failed stops at the first record that
    is not in the store yet, before anything is committed. *)
Theorem C2_empty_index_raises (lower : string -> string) :
  (forall (token_sort_ratio : string -> string -> Z) (name : string) (threshold : Z),
     match_app_id lower token_sort_ratio name [] threshold = Raise TypeError) /\
  (forall (token_sort_ratio : string -> string -> Z) (net : network)
          (game : CatalogRecord) (rest : list CatalogRecord),
     sync lower token_sort_ratio net (game :: rest) [] (initial_state [])
     = (Raise TypeError, with_call (CallMatchAppId (c_title game)) (initial_state []))) /\
  (let net := Fixtures.world Fixtures.server_error
                (Fixtures.ok_json [Fixtures.record 1 "Path of Exile"])
                Fixtures.players_1500 in
   main Fixtures.ascii_lower Fixtures.ratio_90 net (initial_state [])
   = (Raise TypeError,
      mkState [] [] [STEAM_API_URL; API_URL] [CallMatchAppId "Path of Exile"]
              [FailedSteamAppList 500])).
Proof.
  split; [|split].
  - intros token_sort_ratio name threshold. reflexivity.
  - intros token_sort_ratio net game rest.
    unfold sync, sync_loop, bind. cbn [enumerate for_each]. unfold bind.
    rewrite loop_body_new by reflexivity. reflexivity.
  - reflexivity.
Qed.

(** X17. For an id other than [None], whenever the body decodes to JSON
    whose [response] member (an object, a list or a string) does not
    contain [player_count], the fetch returns [None] after its one request;
    and the iteration of the loop that made the call stages the record
    with player count [None] and ends normally, so the traversal goes
    on. *)
Theorem X17_missing_count_staged_as_None (lower : string -> string)
    (token_sort_ratio : string -> string -> Z) (net : network)
    (app_id data inner : pyval) (s : state) :
  is_None app_id = false ->
  json (steam_api net (http_log s) (PLAYERS_URL app_id)) = Some data ->
  py_getitem data "response" = Ok inner ->
  py_in "player_count" inner = Ok false ->
  get_steam_player_count net app_id s = (Ok PNone, with_request (PLAYERS_URL app_id) s) /\
  (forall (steam_app_dict : dict) (total index : nat) (game : CatalogRecord),
     store_has s (c_id game) = false ->
     match_app_id lower token_sort_ratio (c_title game) steam_app_dict default_threshold = Ok
         app_id ->
     truthy app_id = true ->
     exists s',
       loop_body lower token_sort_ratio net steam_app_dict total (index, game) s = (Ok tt, s') /\
       pending s' = pending s ++ [enriched game app_id PNone]).
Proof.
  intros Hid Hjson Hresp Hin.
  assert (Hget : forall s0, http_log s0 = http_log s ->
            get_steam_player_count net app_id s0
            = (Ok PNone, with_request (PLAYERS_URL app_id) s0)).
  { intros s0 Hlog.
    unfold get_steam_player_count, bind, requests_get_steam, response_json, lift, ret.
    rewrite Hid, Hlog, Hjson, Hresp, Hin. reflexivity. }
  split.
  - now apply Hget.
  - intros steam_app_dict total index game Hs Hm Ht.
    rewrite loop_body_new by exact Hs. cbv zeta. rewrite Hm, Ht.
    rewrite Hget by reflexivity.
    eexists. split; reflexivity.
Qed.

Lemma X17_missing_count_staged_as_None_witness :
  let net := Fixtures.world Fixtures.server_error Fixtures.server_error
               Fixtures.players_unknown in
  get_steam_player_count net (PInt 238960) (initial_state [])
  = (Ok PNone, with_request (PLAYERS_URL (PInt 238960)) (initial_state [])) /\
  (forall (steam_app_dict : dict) (total index : nat) (game : CatalogRecord),
     store_has (initial_state []) (c_id game) = false ->
     match_app_id Fixtures.ascii_lower Fixtures.ratio_90 (c_title game) steam_app_dict
         default_threshold
       = Ok (PInt 238960) ->
     truthy (PInt 238960) = true ->
     exists s',
       loop_body Fixtures.ascii_lower Fixtures.ratio_90 net steam_app_dict total (index, game)
           (initial_state [])
         = (Ok tt, s') /\
       pending s' = pending (initial_state []) ++ [enriched game (PInt 238960) PNone]).
Proof.
  intros net.
  apply (X17_missing_count_staged_as_None Fixtures.ascii_lower Fixtures.ratio_90 net (PInt 238960)
           (PDict [("response", PDict [("result", PInt 42)])])
           (PDict [("result", PInt 42)]) (initial_state [])).
  - reflexivity.
  - reflexivity.
  - reflexivity.
  - reflexivity.
Defined.

(** C3. The fetch does not turn every failure into [None]: a player-count
    request answered with HTTP 500 and a body that is not JSON makes it
    raise (the status is never looked at, unlike in the two other
    fetchers), and a body without the [response] member does the same; the
    exception ends the run at that record, the next record is never
    looked at and nothing is committed. *)
Lemma C3_fetch_failure_raises :
  let apps := Fixtures.ok_json (Fixtures.applist_body [Fixtures.app "Dota 2" 570]) in
  let games := Fixtures.ok_json [Fixtures.record 1 "Dota 2"; Fixtures.record 2 "Exile"] in
  let net := Fixtures.world apps games Fixtures.server_error in
  let net' := Fixtures.world apps games (Fixtures.ok_json (PDict [])) in
  get_steam_player_count net (PInt 570) (initial_state [])
    = (Raise JSONDecodeError, with_request (PLAYERS_URL (PInt 570)) (initial_state [])) /\
  fst (get_steam_player_count net (PInt 570) (initial_state [])) <> Ok PNone /\
  fst (get_steam_player_count net' (PInt 570) (initial_state [])) = Raise KeyError /\
  main Fixtures.ascii_lower Fixtures.ratio_90 net (initial_state [])
    = (Raise JSONDecodeError,
       mkState [] [] [STEAM_API_URL; API_URL; PLAYERS_URL (PInt 570)]
               [CallMatchAppId "Dota 2"; CallGetSteamPlayerCount (PInt 570)] []).
Proof.
  repeat split; try reflexivity. discriminate.
Qed.

(** C9. From a 200 answer whose [applist.apps] is a list of entries with a
    name and an appid, the builder returns a dict that maps every
    lower-cased name to the appid of the last entry bearing it, and no
    other key; each key occurs once. *)
Theorem C9_index_last_write_wins (lower : string -> string) (net : network) (s : state)
    (body applist : pyval) (apps : list pyval) (entries : list (string * pyval)) :
  status_code (steam_api net (http_log s) STEAM_API_URL) = 200 ->
  json (steam_api net (http_log s) STEAM_API_URL) = Some body ->
  py_get body "applist" (PDict []) = Ok applist ->
  py_get applist "apps" (PList []) = Ok (PList apps) ->
  Forall2 is_app_entry apps entries ->
  exists d,
    build_steam_app_dict lower net s = (Ok d, with_request STEAM_API_URL s) /\
    (forall k, dict_get k d = last_appid_of lower k entries) /\
    NoDup (dict_keys d).
Proof.
  intros Hstatus Hjson Hal Happs Hentries.
  destruct (dict_comprehension_last lower apps entries Hentries []) as (d & Hd & Hget & Hnd).
  exists d. split; [|split].
  - unfold build_steam_app_dict, bind, requests_get_steam, response_json, lift, ret.
    rewrite Hstatus, Hjson, Hal, Happs. simpl. now rewrite Hd.
  - intros k. rewrite Hget. now destruct (last_appid_of lower k entries).
  - apply Hnd. constructor.
Qed.

Lemma C9_index_last_write_wins_witness :
  let apps := [Fixtures.app "Exile" 1; Fixtures.app "Path of Exile" 2; Fixtures.app "EXILE" 3] in
  let net := Fixtures.world (Fixtures.ok_json (Fixtures.applist_body apps))
               Fixtures.server_error Fixtures.server_error in
  let entries := [("Exile", PInt 1); ("Path of Exile", PInt 2); ("EXILE", PInt 3)] in
  exists d,
    build_steam_app_dict Fixtures.ascii_lower net (initial_state [])
      = (Ok d, with_request STEAM_API_URL (initial_state [])) /\
    (forall k, dict_get k d = last_appid_of Fixtures.ascii_lower k entries) /\
    NoDup (dict_keys d).
Proof.
  intros apps net entries.
  apply (C9_index_last_write_wins Fixtures.ascii_lower net (initial_state [])
           (Fixtures.applist_body apps) (PDict [("apps", PList apps)]) apps entries).
  - reflexivity.
  - reflexivity.
  - reflexivity.
  - reflexivity.
  - repeat constructor.
Defined.

(** The index of the witness above, computed: the later [EXILE] took over
    the value of [exile] and kept its place. *)
Example index_with_duplicate_names :
  dict_comprehension Fixtures.ascii_lower [Fixtures.app "Exile" 1; Fixtures.app "Path of Exile"
      2; Fixtures.app "EXILE" 3] []
  = Ok [("exile", PInt 3); ("path of exile", PInt 2)].
Proof. reflexivity. Qed.

(** ** Further properties of the matcher *)

(** X1. On an index that is not empty, with a scorer that gives no negative
    score, [match_app_id] never raises, and what it returns is [None] or a
    value stored in the index. *)
Theorem X1_match_app_id_total (lower : string -> string) (token_sort_ratio : string -> string -> Z)
    (name : string) (app_dict : dict) (threshold : Z) :
  app_dict <> [] ->
  Forall (fun k => 0 <= token_sort_ratio (lower name) k) (dict_keys app_dict) ->
  exists v,
    match_app_id lower token_sort_ratio name app_dict threshold = Ok v /\
    (v = PNone \/ exists k, dict_get k app_dict = Some v).
Proof.
  intros Hne Hpos. unfold match_app_id, dict_contains, dict_getitem.
  destruct (dict_get (lower name) app_dict) as [v|] eqn:Hexact.
  - exists v. split; [reflexivity|]. right. eauto.
  - destruct app_dict as [|[k0 v0] rest]; [contradiction|].
    assert (Hin : In k0 (dict_keys ((k0, v0) :: rest))) by (simpl; auto).
    rewrite Forall_forall in Hpos.
    destruct (extractOne_some token_sort_ratio (lower name) _ k0 Hin (Hpos _ Hin))
      as (m & sc & E).
    rewrite E.
    destruct (extractOne_spec _ _ _ _ _ E) as (Hfind & _).
    destruct (find_some _ _ Hfind) as (Hm & _).
    destruct (in_keys_dict_get _ _ Hm) as (v & Hv).
    destruct (threshold <=? sc).
    + exists v. rewrite Hv. split; [reflexivity|]. right. eauto.
    + exists PNone. auto.
Qed.

Lemma X1_match_app_id_total_witness :
  exists v,
    match_app_id Fixtures.ascii_lower Fixtures.ratio_90 "Path of Exile II" Fixtures.index_poe2
        95 = Ok v /\
    (v = PNone \/ exists k, dict_get k Fixtures.index_poe2 = Some v).
Proof.
  apply (X1_match_app_id_total Fixtures.ascii_lower Fixtures.ratio_90 "Path of Exile II"
      Fixtures.index_poe2 95).
  - discriminate.
  - repeat constructor; apply Z.leb_le; reflexivity.
Defined.

(** X2. Without an exact key, at any threshold: the answer is decided by the
    greatest score alone, and among the keys that reach it the first one in
    the order of the index supplies the value. *)
Theorem X2_match_app_id_best_first (lower : string -> string) (token_sort_ratio : string ->
    string -> Z)
    (name : string) (app_dict : dict) (threshold : Z) (best : string) :
  dict_contains (lower name) app_dict = false ->
  In best (dict_keys app_dict) ->
  0 <= token_sort_ratio (lower name) best ->
  Forall (fun k => token_sort_ratio (lower name) k <= token_sort_ratio (lower name) best)
         (dict_keys app_dict) ->
  exists m v,
    find (fun k => token_sort_ratio (lower name) k =? token_sort_ratio (lower name) best)
         (dict_keys app_dict) = Some m /\
    dict_get m app_dict = Some v /\
    match_app_id lower token_sort_ratio name app_dict threshold
    = if threshold <=? token_sort_ratio (lower name) best then Ok v else Ok PNone.
Proof.
  intros Hno Hin Hpos Hmax.
  destruct (extractOne_some token_sort_ratio (lower name) (dict_keys app_dict) best Hin Hpos)
    as (m & sc & E).
  destruct (extractOne_spec _ _ _ _ _ E) as (Hfind & Hall).
  destruct (find_some _ _ Hfind) as (Hm & Hs). apply Z.eqb_eq in Hs.
  assert (Hsc : sc = token_sort_ratio (lower name) best).
  { rewrite Forall_forall in Hmax, Hall.
    specialize (Hmax _ Hm). specialize (Hall _ Hin). lia. }
  rewrite Hsc in Hfind, E.
  destruct (in_keys_dict_get _ _ Hm) as (v & Hv).
  exists m, v. split; [exact Hfind|]. split; [exact Hv|].
  unfold match_app_id. rewrite Hno, E. unfold dict_getitem. rewrite Hv.
  destruct (threshold <=? _); reflexivity.
Qed.

Lemma X2_match_app_id_best_first_witness :
  exists m v,
    find (fun k => Fixtures.ratio_90 (Fixtures.ascii_lower "Path of Exile II") k
                   =? Fixtures.ratio_90 (Fixtures.ascii_lower "Path of Exile II") "path of exile 2")
         (dict_keys Fixtures.index_poe2) = Some m /\
    dict_get m Fixtures.index_poe2 = Some v /\
    match_app_id Fixtures.ascii_lower Fixtures.ratio_90 "Path of Exile II" Fixtures.index_poe2 75
    = if 75 <=? Fixtures.ratio_90 (Fixtures.ascii_lower "Path of Exile II") "path of exile 2"
      then Ok v else Ok PNone.
Proof.
  apply (X2_match_app_id_best_first Fixtures.ascii_lower Fixtures.ratio_90 "Path of Exile II"
           Fixtures.index_poe2 75 "path of exile 2").
  - reflexivity.
  - simpl. auto.
  - apply Z.leb_le. reflexivity.
  - repeat constructor; apply Z.leb_le; reflexivity.
Defined.

(** ** Further properties of the index builder *)

Lemma filter_filter_and {A} (f g : A -> bool) (l : list A) :
  filter f (filter g l) = filter (fun x => g x && f x) l.
Proof.
  induction l as [|a l IH]; simpl; [reflexivity|].
  destruct (g a); simpl; [destruct (f a)|]; now rewrite IH.
Qed.

Lemma dict_contains_keys (k : string) (d : dict) :
  dict_contains k d = existsb (String.eqb k) (dict_keys d).
Proof.
  unfold dict_contains. induction d as [|[k' v'] d IH]; simpl; [reflexivity|].
  destruct (String.eqb k k'); simpl; [reflexivity|exact IH].
Qed.

(** The keys of the comprehension: those of the accumulator, then the new
    names at their first occurrence. *)
Lemma dict_comprehension_keys (lower : string -> string)
    (apps : list pyval) (entries : list (string * pyval)) :
  Forall2 is_app_entry apps entries ->
  forall (acc d : dict),
  dict_comprehension lower apps acc = Ok d ->
  dict_keys d
  = dict_keys acc ++
    filter (fun y => negb (existsb (String.eqb y) (dict_keys acc)))
           (first_occurrences (map (fun e => lower (fst e)) entries)).
Proof.
  induction 1 as [|app [name appid] apps entries [Hn Ha] _ IH]; intros acc d; simpl.
  - intros H. inversion H. now rewrite app_nil_r.
  - unfold app_item. simpl in Hn, Ha. rewrite Hn. simpl. rewrite Ha.
    intros Hd. rewrite (IH _ _ Hd), dict_keys_set, dict_contains_keys.
    rewrite filter_filter_and.
    destruct (existsb (String.eqb (lower name)) (dict_keys acc)) eqn:E; simpl.
    + f_equal. apply filter_ext_in. intros y _.
      destruct (String.eqb_spec (lower name) y) as [<-|Hne]; simpl.
      * now rewrite E.
      * reflexivity.
    + rewrite <- app_assoc. simpl. f_equal. f_equal.
      apply filter_ext_in. intros y _.
      rewrite existsb_app. simpl. rewrite orb_false_r, negb_orb.
      rewrite (String.eqb_sym y (lower name)). apply andb_comm.
Qed.

(** X3. The answers that give the empty index: a status other than 200,
    whatever the body, reported on the output; a 200 whose JSON object has
    no [applist]; a 200 whose [applist] has no [apps]. None of them
    raises. *)
Theorem X3_degenerate_app_list (lower : string -> string) (net : network) (s : state) :
  let r := steam_api net (http_log s) STEAM_API_URL in
  (status_code r <> 200 ->
   build_steam_app_dict lower net s
   = (Ok [], with_line (FailedSteamAppList (status_code r))
                       (with_request STEAM_API_URL s))) /\
  (forall b, status_code r = 200 -> json r = Some (PDict b) ->
             dict_get "applist" b = None ->
             build_steam_app_dict lower net s = (Ok [], with_request STEAM_API_URL s)) /\
  (forall b al, status_code r = 200 -> json r = Some (PDict b) ->
                dict_get "applist" b = Some (PDict al) ->
                dict_get "apps" al = None ->
                build_steam_app_dict lower net s = (Ok [], with_request STEAM_API_URL s)).
Proof.
  intros r. subst r.
  unfold build_steam_app_dict, bind, requests_get_steam, response_json, lift, ret, print.
  split; [|split].
  - intros H. apply Z.eqb_neq in H. now rewrite H.
  - intros b Hs Hj Hb. rewrite Hs, Hj. simpl. now rewrite Hb.
  - intros b al Hs Hj Hb Hal. rewrite Hs, Hj. simpl. rewrite Hb. simpl. now rewrite Hal.
Qed.

Lemma X3_degenerate_app_list_witness :
  let net := Fixtures.world (Fixtures.ok_json (PDict [("applist", PDict [])]))
               Fixtures.server_error Fixtures.server_error in
  let net' := Fixtures.world Fixtures.server_error Fixtures.server_error
                Fixtures.server_error in
  build_steam_app_dict Fixtures.ascii_lower net (initial_state [])
    = (Ok [], with_request STEAM_API_URL (initial_state [])) /\
  build_steam_app_dict Fixtures.ascii_lower net' (initial_state [])
    = (Ok [], with_line (FailedSteamAppList 500)
                        (with_request STEAM_API_URL (initial_state []))).
Proof.
  intros net net'. split.
  - apply (proj2 (proj2 (X3_degenerate_app_list Fixtures.ascii_lower net (initial_state [])))
             [("applist", PDict [])] []); reflexivity.
  - apply (proj1 (X3_degenerate_app_list Fixtures.ascii_lower net' (initial_state []))).
    simpl. lia.
Defined.

Lemma dict_comprehension_raises (lower : string -> string)
    (pre : list pyval) (entries : list (string * pyval)) :
  Forall2 is_app_entry pre entries ->
  forall (bad : pyval) (post : list pyval) (e : exn) (acc : dict),
  app_item lower bad = Raise e ->
  dict_comprehension lower (pre ++ bad :: post) acc = Raise e.
Proof.
  induction 1 as [|app [name appid] pre entries [Hn Ha] _ IH];
    intros bad post e acc Hbad; simpl.
  - now rewrite Hbad.
  - unfold app_item at 1. simpl in Hn, Ha. rewrite Hn. simpl. rewrite Ha.
    now apply IH.
Qed.

(** X4. One entry of the app list that cannot be read (no [name], a [name]
    that is not a string, no [appid], or not a JSON object at all) makes
    the builder raise: the entries before it are lost with it and no index
    is returned. *)
Theorem X4_bad_entry_loses_index (lower : string -> string) (net : network) (s : state)
    (body applist bad : pyval) (pre post : list pyval)
    (entries : list (string * pyval)) (e : exn) :
  status_code (steam_api net (http_log s) STEAM_API_URL) = 200 ->
  json (steam_api net (http_log s) STEAM_API_URL) = Some body ->
  py_get body "applist" (PDict []) = Ok applist ->
  py_get applist "apps" (PList []) = Ok (PList (pre ++ bad :: post)) ->
  Forall2 is_app_entry pre entries ->
  app_item lower bad = Raise e ->
  build_steam_app_dict lower net s = (Raise e, with_request STEAM_API_URL s).
Proof.
  intros Hstatus Hjson Hal Happs Hpre Hbad.
  unfold build_steam_app_dict, bind, requests_get_steam, response_json, lift, ret.
  rewrite Hstatus, Hjson, Hal, Happs. simpl.
  now rewrite (dict_comprehension_raises lower pre entries Hpre bad post e []).
Qed.

Lemma X4_bad_entry_loses_index_witness :
  let apps := [Fixtures.app "Exile" 1; PDict [("appid", PInt 2)]; Fixtures.app "Dota 2" 570] in
  let net := Fixtures.world (Fixtures.ok_json (Fixtures.applist_body apps))
               Fixtures.server_error Fixtures.server_error in
  build_steam_app_dict Fixtures.ascii_lower net (initial_state [])
  = (Raise KeyError, with_request STEAM_API_URL (initial_state [])).
Proof.
  intros apps net.
  apply (X4_bad_entry_loses_index Fixtures.ascii_lower net (initial_state [])
      (Fixtures.applist_body apps)
           (PDict [("apps", PList apps)]) (PDict [("appid", PInt 2)])
           [Fixtures.app "Exile" 1] [Fixtures.app "Dota 2" 570] [("Exile", PInt 1)] KeyError).
  - reflexivity.
  - reflexivity.
  - reflexivity.
  - reflexivity.
  - repeat constructor.
  - reflexivity.
Defined.

(** X5. The keys of the built index are the lower-cased names of the app
    list without repetitions, each at the place of its first occurrence:
    an overwritten key keeps its position in the enumeration order the
    matcher scans. *)
Theorem X5_index_key_order (lower : string -> string) (net : network) (s : state) (s' : state)
    (body applist : pyval) (apps : list pyval) (entries : list (string * pyval))
    (d : dict) :
  status_code (steam_api net (http_log s) STEAM_API_URL) = 200 ->
  json (steam_api net (http_log s) STEAM_API_URL) = Some body ->
  py_get body "applist" (PDict []) = Ok applist ->
  py_get applist "apps" (PList []) = Ok (PList apps) ->
  Forall2 is_app_entry apps entries ->
  build_steam_app_dict lower net s = (Ok d, s') ->
  dict_keys d = first_occurrences (map (fun e => lower (fst e)) entries).
Proof.
  intros Hstatus Hjson Hal Happs Hentries.
  unfold build_steam_app_dict, bind, requests_get_steam, response_json, lift, ret.
  rewrite Hstatus, Hjson, Hal, Happs. simpl.
  destruct (dict_comprehension lower apps []) as [d0|e] eqn:E; [|discriminate].
  intros H. inversion H; subst. clear H.
  rewrite (dict_comprehension_keys lower apps entries Hentries [] d E). simpl.
  induction (first_occurrences (map (fun e => lower (fst e)) entries)) as [|x l IH];
    simpl; [reflexivity|]. now f_equal.
Qed.

Lemma X5_index_key_order_witness :
  let apps := [Fixtures.app "Exile" 1; Fixtures.app "Path of Exile" 2; Fixtures.app "EXILE" 3] in
  let net := Fixtures.world (Fixtures.ok_json (Fixtures.applist_body apps))
               Fixtures.server_error Fixtures.server_error in
  dict_keys [("exile", PInt 3); ("path of exile", PInt 2)]
  = first_occurrences
      (map (fun e => Fixtures.ascii_lower (fst e))
           [("Exile", PInt 1); ("Path of Exile", PInt 2); ("EXILE", PInt 3)]).
Proof.
  intros apps net.
  apply (X5_index_key_order Fixtures.ascii_lower net (initial_state [])
           (with_request STEAM_API_URL (initial_state []))
           (Fixtures.applist_body apps) (PDict [("apps", PList apps)]) apps
           [("Exile", PInt 1); ("Path of Exile", PInt 2); ("EXILE", PInt 3)]).
  - reflexivity.
  - reflexivity.
  - reflexivity.
  - reflexivity.
  - repeat constructor.
  - reflexivity.
Defined.

(** ** Further properties of the loop *)

Lemma existsb_map_id (i : Z) (l : list Game) :
  existsb (fun j => j =? i) (map id l) = existsb (fun g => id g =? i) l.
Proof.
  induction l as [|g l IH]; simpl; [reflexivity|]. now rewrite IH.
Qed.

Lemma requests_of_app (l1 l2 : list Game) :
  requests_of (l1 ++ l2) = requests_of l1 ++ requests_of l2.
Proof.
  unfold requests_of. now rewrite map_app, filter_app, map_app.
Qed.

Lemma requests_of_length (l : list Game) :
  (List.length (requests_of l) <= List.length l)%nat.
Proof.
  unfold requests_of. rewrite length_map.
  etransitivity; [apply filter_length_le|]. now rewrite length_map.
Qed.

Lemma fresh_items_length (items : list (nat * CatalogRecord)) :
  forall seen, (List.length (fresh_items seen items) <= List.length items)%nat.
Proof.
  induction items as [|item items IH]; intros seen; simpl; [lia|].
  destruct (existsb _ seen); simpl.
  - specialize (IH seen). lia.
  - specialize (IH (seen ++ [c_id (snd item)])). lia.
Qed.

Lemma enumerate_length {A} (l : list A) :
  forall n, List.length (enumerate n l) = List.length l.
Proof.
  induction l as [|a l IH]; intros n; simpl; [reflexivity|]. now rewrite IH.
Qed.

Lemma truthy_not_None (v : pyval) : truthy v = true -> is_None v = false.
Proof. destruct v; simpl; intros H; auto; discriminate. Qed.

Section TraceFacts.

Variable lower : string -> string.
Variable token_sort_ratio : string -> string -> Z.
Variable net : network.

(** One completed iteration on a record that is not in the store. *)
Lemma loop_body_fresh (d : dict) (total : nat) (item : nat * CatalogRecord)
    (s s1 : state) :
  store_has s (c_id (snd item)) = false ->
  loop_body lower token_sort_ratio net d total item s = (Ok tt, s1) ->
  exists row,
    staged_for lower token_sort_ratio d item row /\
    db s1 = db s /\
    pending s1 = pending s ++ [row] /\
    stdout s1 = stdout s ++ [progress_line total item] /\
    call_log s1 = call_log s ++ calls_of row /\
    http_log s1 = http_log s ++ requests_of [row].
Proof.
  destruct item as [index game]. cbn [snd]. intros Hs.
  rewrite loop_body_new by exact Hs. cbv zeta.
  destruct (match_app_id _ _ _ _) as [appid|e] eqn:Hm; [|discriminate].
  destruct (truthy appid) eqn:Ht.
  - pose proof (get_steam_player_count_state net appid
      (with_call (CallGetSteamPlayerCount appid)
         (with_call (CallMatchAppId (c_title game)) s))) as Hst.
    rewrite (truthy_not_None _ Ht) in Hst.
    destruct (get_steam_player_count net appid _) as [[count|e] s2]; [|discriminate].
    simpl in Hst. subst s2. intros H. inversion H; subst; clear H.
    exists (enriched game appid count). unfold staged_for, calls_of, requests_of.
    simpl. rewrite Ht. simpl. repeat split; auto.
    + exists appid, count. repeat split; auto. congruence.
    + now rewrite <- app_assoc.
  - intros H. inversion H; subst; clear H.
    exists (enriched game appid PNone). unfold staged_for, calls_of, requests_of.
    simpl. rewrite Ht. simpl. repeat split; auto.
    + exists appid, PNone. repeat split; auto.
    + now rewrite app_nil_r.
Qed.

(** A completed traversal, spelled out: which rows are staged, in which
    order, and what is printed, called and requested for them. *)
Lemma for_each_trace (d : dict) (total : nat) (items : list (nat * CatalogRecord)) :
  forall s s' : state,
  for_each items (loop_body lower token_sort_ratio net d total) s = (Ok tt, s') ->
  exists rows,
    Forall2 (staged_for lower token_sort_ratio d)
            (fresh_items (map id (db s ++ pending s)) items) rows /\
    db s' = db s /\
    pending s' = pending s ++ rows /\
    stdout s' = stdout s
                ++ map (progress_line total) (fresh_items (map id (db s ++ pending s)) items) /\
    call_log s' = call_log s ++ flat_map calls_of rows /\
    http_log s' = http_log s ++ requests_of rows.
Proof.
  induction items as [|item items IH]; intros s s'.
  - simpl. intros H. inversion H; subst. exists [].
    simpl. rewrite !app_nil_r. repeat split; auto.
  - cbn [for_each fresh_items]. unfold bind.
    rewrite existsb_map_id. fold (store_has s (c_id (snd item))).
    destruct (store_has s (c_id (snd item))) eqn:Hs.
    + destruct item as [index game].
      rewrite loop_body_stored by exact Hs. apply IH.
    + destruct (loop_body lower token_sort_ratio net d total item s) as [[[]|e] s1] eqn:E1;
        [|discriminate].
      destruct (loop_body_fresh _ _ _ _ _ Hs E1) as (row & Hrow & Hdb & Hp & Ho & Hc & Hh).
      intros E2. destruct (IH _ _ E2) as (rows & Hrows & Hdb' & Hp' & Ho' & Hc' & Hh').
      assert (Hseen : map id (db s1 ++ pending s1)
                      = map id (db s ++ pending s) ++ [c_id (snd item)]).
      { rewrite Hdb, Hp, app_assoc, map_app. simpl. f_equal.
        destruct Hrow as (a & c & _ & -> & _). reflexivity. }
      rewrite Hseen in Hrows, Ho'.
      exists (row :: rows). repeat split.
      * constructor; assumption.
      * congruence.
      * rewrite Hp', Hp, <- app_assoc. reflexivity.
      * rewrite Ho', Ho, <- app_assoc. reflexivity.
      * rewrite Hc', Hc, <- app_assoc. reflexivity.
      * rewrite Hh', Hh, <- app_assoc.
        change (row :: rows) with ([row] ++ rows). now rewrite requests_of_app.
Qed.

(** What an iteration may stage, with the id it carries. *)
Lemma loop_body_ids (d : dict) (total : nat) (item : nat * CatalogRecord)
    (s s' : state) (r : result unit) :
  loop_body lower token_sort_ratio net d total item s = (r, s') ->
  db s' = db s /\
  (pending s' = pending s \/
   store_has s (c_id (snd item)) = false /\
   exists row, pending s' = pending s ++ [row] /\ id row = c_id (snd item)).
Proof.
  destruct (store_has s (c_id (snd item))) eqn:Hs.
  - destruct item as [index game]. rewrite loop_body_stored by exact Hs.
    intros H. inversion H; subst. auto.
  - destruct r as [[]|e].
    + intros E. destruct (loop_body_fresh _ _ _ _ _ Hs E) as (row & Hrow & Hdb & Hp & _).
      split; [exact Hdb|]. right. split; [reflexivity|]. exists row. split; [exact Hp|].
      destruct Hrow as (a & c & _ & -> & _). reflexivity.
    + destruct item as [index game]. cbn [snd] in *.
      rewrite loop_body_new by exact Hs. cbv zeta.
      destruct (match_app_id _ _ _ _) as [appid|e0].
      * destruct (truthy appid) eqn:Ht; [|discriminate].
        pose proof (get_steam_player_count_state net appid
          (with_call (CallGetSteamPlayerCount appid)
             (with_call (CallMatchAppId (c_title game)) s))) as Hst.
        destruct (get_steam_player_count net appid _) as [[count|e1] s2]; [discriminate|].
        simpl in Hst. intros H. inversion H; subst; clear H.
        destruct (is_None appid); simpl; auto.
      * intros H. inversion H; subst. simpl. auto.
Qed.

(** The catalog step sends one request and leaves the store alone. *)
Lemma fetch_catalog_state (s s1 : state) (r : result (list CatalogRecord)) :
  fetch_catalog net s = (r, s1) ->
  db s1 = db s /\ pending s1 = pending s /\ call_log s1 = call_log s /\
  http_log s1 = http_log s ++ [API_URL].
Proof.
  unfold fetch_catalog, fetch_api, bind, requests_get_catalog, response_json, ret,
    raise, print.
  destruct (status_code _ =? 200).
  - destruct (json _); intros H; inversion H; subst; simpl; auto.
  - intros H; inversion H; subst; simpl; auto.
Qed.

End TraceFacts.

Lemma for_each_ids_NoDup (lower : string -> string)
    (token_sort_ratio : string -> string -> Z) (net : network)
    (d : dict) (total : nat) (items : list (nat * CatalogRecord)) :
  forall (s s' : state) (r : result unit),
  NoDup (map id (db s ++ pending s)) ->
  for_each items (loop_body lower token_sort_ratio net d total) s = (r, s') ->
  NoDup (map id (db s' ++ pending s')).
Proof.
  induction items as [|item items IH]; intros s s' r Hnd; simpl.
  - intros H. inversion H; subst. exact Hnd.
  - unfold bind.
    destruct (loop_body lower token_sort_ratio net d total item s) as [r1 s1] eqn:E1.
    assert (Hnd1 : NoDup (map id (db s1 ++ pending s1))).
    { destruct (loop_body_ids _ _ _ _ _ _ _ _ _ E1) as (Hdb & [Hp|(Hs & row & Hp & Hid)]).
      - now rewrite Hdb, Hp.
      - rewrite Hdb, Hp, app_assoc, map_app. simpl.
        apply NoDup_app; auto.
        + constructor; [intros []|constructor].
        + intros x Hx [<-|[]]. unfold store_has in Hs.
          rewrite <- existsb_map_id in Hs. rewrite Hid in Hx.
          assert (Ht : existsb (fun j => j =? c_id (snd item))
                               (map id (db s ++ pending s)) = true).
          { apply existsb_exists. exists (c_id (snd item)). split; [exact Hx|].
            apply Z.eqb_refl. }
          congruence. }
    destruct r1 as [[]|e].
    + intros E2. eapply IH; eauto.
    + intros H. inversion H; subst. exact Hnd1.
Qed.

(** X6. A completed [sync] adds to the table exactly one row per catalog
    record whose id was not in the store, in catalog order; a second
    catalog record with the same id is skipped; each new row is the catalog
    record with the matcher's answer for its title, and a player count only
    under a truthy Steam id. Nothing is left staged. *)
Theorem X6_sync_adds_fresh_records (lower : string -> string)
    (token_sort_ratio : string -> string -> Z) (net : network)
    (api_data : list CatalogRecord) (steam_app_dict : dict) (s s' : state) :
  sync lower token_sort_ratio net api_data steam_app_dict s = (Ok tt, s') ->
  exists rows,
    Forall2 (staged_for lower token_sort_ratio steam_app_dict)
            (fresh_items (map id (db s ++ pending s)) (enumerate 1 api_data)) rows /\
    db s' = db s ++ pending s ++ rows /\
    pending s' = [].
Proof.
  unfold sync, bind.
  destruct (sync_loop lower token_sort_ratio net api_data steam_app_dict s) as [[[]|e] s1] eqn:E1;
    [|discriminate].
  unfold sync_loop in E1.
  destruct (for_each_trace _ _ _ _ _ _ _ _ E1) as (rows & Hrows & Hdb & Hp & _).
  intros H. inversion H; subst; clear H. simpl.
  exists rows. rewrite Hdb, Hp. auto.
Qed.

Lemma X6_sync_adds_fresh_records_witness :
  let net := Fixtures.world Fixtures.server_error Fixtures.server_error Fixtures.players_1500 in
  let api_data := [Fixtures.record 3 "Exile"; Fixtures.record 42 "Path of Exile";
                   Fixtures.record 3 "Exile again"] in
  let s := initial_state [Fixtures.row 42 "Path of Exile" PNone PNone] in
  let s' := snd (sync Fixtures.ascii_lower Fixtures.ratio_90 net api_data Fixtures.index_poe2 s) in
  exists rows,
    Forall2 (staged_for Fixtures.ascii_lower Fixtures.ratio_90 Fixtures.index_poe2)
            (fresh_items (map id (db s ++ pending s)) (enumerate 1 api_data)) rows /\
    db s' = db s ++ pending s ++ rows /\
    pending s' = [].
Proof.
  intros net api_data s s'.
  apply (X6_sync_adds_fresh_records Fixtures.ascii_lower Fixtures.ratio_90 net api_data
      Fixtures.index_poe2 s s').
  reflexivity.
Defined.

(** X7. A completed [sync] sends exactly one player-count request per new
    row with a truthy Steam id, in the order of the rows, and no other
    request: at most one request per catalog record. *)
Theorem X7_sync_request_accounting (lower : string -> string)
    (token_sort_ratio : string -> string -> Z) (net : network)
    (api_data : list CatalogRecord) (steam_app_dict : dict) (s s' : state) :
  sync lower token_sort_ratio net api_data steam_app_dict s = (Ok tt, s') ->
  exists rows,
    db s' = db s ++ pending s ++ rows /\
    http_log s' = http_log s ++ requests_of rows /\
    (List.length (requests_of rows) <= List.length rows <= List.length api_data)%nat.
Proof.
  unfold sync, bind.
  destruct (sync_loop lower token_sort_ratio net api_data steam_app_dict s) as [[[]|e] s1] eqn:E1;
    [|discriminate].
  unfold sync_loop in E1.
  destruct (for_each_trace _ _ _ _ _ _ _ _ E1) as (rows & Hrows & Hdb & Hp & _ & _ & Hh).
  intros H. inversion H; subst; clear H. simpl.
  exists rows. rewrite Hdb, Hp. repeat split; auto.
  - apply requests_of_length.
  - rewrite <- (Forall2_length Hrows).
    etransitivity; [apply fresh_items_length|]. now rewrite enumerate_length.
Qed.

Lemma X7_sync_request_accounting_witness :
  let net := Fixtures.world Fixtures.server_error Fixtures.server_error Fixtures.players_1500 in
  let api_data := [Fixtures.record 3 "Exile"; Fixtures.record 5 "Unknown"] in
  let s := initial_state [] in
  let s' := snd (sync Fixtures.ascii_lower Fixtures.ratio_90 net api_data Fixtures.index_poe2 s) in
  exists rows,
    db s' = db s ++ pending s ++ rows /\
    http_log s' = http_log s ++ requests_of rows /\
    (List.length (requests_of rows) <= List.length rows <= List.length api_data)%nat.
Proof.
  intros net api_data s s'.
  apply (X7_sync_request_accounting Fixtures.ascii_lower Fixtures.ratio_90 net api_data
      Fixtures.index_poe2 s s').
  reflexivity.
Defined.

(** X8. A completed loop prints one progress line per record it enriches,
    in catalog order, with the record's position in the whole catalog
    (counted from 1) and the catalog's length; a skipped record prints
    nothing but still takes a position. *)
Theorem X8_progress_lines (lower : string -> string)
    (token_sort_ratio : string -> string -> Z) (net : network)
    (api_data : list CatalogRecord) (steam_app_dict : dict) (s s' : state) :
  sync_loop lower token_sort_ratio net api_data steam_app_dict s = (Ok tt, s') ->
  stdout s' = stdout s
              ++ map (progress_line (List.length api_data))
                     (fresh_items (map id (db s ++ pending s)) (enumerate 1 api_data)).
Proof.
  unfold sync_loop. intros E.
  destruct (for_each_trace _ _ _ _ _ _ _ _ E) as (rows & _ & _ & _ & Ho & _).
  exact Ho.
Qed.

Lemma X8_progress_lines_witness :
  let net := Fixtures.world Fixtures.server_error Fixtures.server_error Fixtures.players_1500 in
  let api_data := [Fixtures.record 42 "Path of Exile"; Fixtures.record 3 "Exile"] in
  let s := initial_state [Fixtures.row 42 "Path of Exile" PNone PNone] in
  stdout (snd (sync_loop Fixtures.ascii_lower Fixtures.ratio_90 net api_data Fixtures.index_poe2 s))
  = [Processing 2 2 "Exile"].
Proof.
  intros net api_data s.
  apply (X8_progress_lines Fixtures.ascii_lower Fixtures.ratio_90 net api_data Fixtures.index_poe2 s
           (snd (sync_loop Fixtures.ascii_lower Fixtures.ratio_90 net api_data
               Fixtures.index_poe2 s))).
  reflexivity.
Defined.

(** X9. [sync] commits all or nothing: when it raises, the table is exactly
    as before and what was staged stays uncommitted; when it returns,
    nothing is left staged. Either way the rows that were in the store are
    still there, unchanged and in place, with new rows only after them. *)
Theorem X9_sync_all_or_nothing (lower : string -> string)
    (token_sort_ratio : string -> string -> Z) (net : network)
    (api_data : list CatalogRecord) (steam_app_dict : dict) (s s' : state)
    (r : result unit) :
  sync lower token_sort_ratio net api_data steam_app_dict s = (r, s') ->
  (forall e, r = Raise e -> db s' = db s) /\
  (r = Ok tt -> pending s' = []) /\
  exists extra, db s' ++ pending s' = db s ++ pending s ++ extra.
Proof.
  unfold sync, bind.
  destruct (sync_loop lower token_sort_ratio net api_data steam_app_dict s) as [[[]|e] s1] eqn:E1;
    unfold sync_loop in E1;
    destruct (for_each_effect _ _ _ _ _ _ _ _ _ E1) as (Hdb & (extra & Hp & _) & _);
    intros H; inversion H; subst; clear H; simpl.
  - repeat split; try discriminate.
    exists extra. now rewrite app_nil_r, Hdb, Hp.
  - repeat split; try discriminate.
    + intros e0 _. exact Hdb.
    + exists extra. now rewrite Hdb, Hp.
Qed.

Lemma X9_sync_all_or_nothing_witness :
  let net := Fixtures.world Fixtures.server_error Fixtures.server_error Fixtures.server_error in
  let api_data := [Fixtures.record 3 "Unknown"; Fixtures.record 5 "Exile"] in
  let s := initial_state [Fixtures.row 42 "Path of Exile" PNone PNone] in
  let out := sync Fixtures.ascii_lower Fixtures.ratio_90 net api_data Fixtures.index_poe2 s in
  (forall e, fst out = Raise e -> db (snd out) = db s) /\
  (fst out = Ok tt -> pending (snd out) = []) /\
  exists extra, db (snd out) ++ pending (snd out) = db s ++ pending s ++ extra.
Proof.
  intros net api_data s out.
  apply (X9_sync_all_or_nothing Fixtures.ascii_lower Fixtures.ratio_90 net api_data
      Fixtures.index_poe2 s
           (snd out) (fst out)).
  reflexivity.
Defined.

(** X10. Ids stay unique: if no two rows of the store share an id before
    [sync], none do after it, even when the catalog repeats an id and
    whether the run completes or raises. *)
Theorem X10_ids_stay_unique (lower : string -> string)
    (token_sort_ratio : string -> string -> Z) (net : network)
    (api_data : list CatalogRecord) (steam_app_dict : dict) (s s' : state)
    (r : result unit) :
  NoDup (map id (db s ++ pending s)) ->
  sync lower token_sort_ratio net api_data steam_app_dict s = (r, s') ->
  NoDup (map id (db s' ++ pending s')).
Proof.
  intros Hnd. unfold sync, bind.
  destruct (sync_loop lower token_sort_ratio net api_data steam_app_dict s) as [r1 s1] eqn:E1.
  unfold sync_loop in E1.
  pose proof (for_each_ids_NoDup lower _ _ _ _ _ _ _ _ Hnd E1) as Hnd1.
  destruct r1 as [[]|e]; intros H; inversion H; subst; clear H; simpl.
  - now rewrite app_nil_r.
  - exact Hnd1.
Qed.

Lemma X10_ids_stay_unique_witness :
  let net := Fixtures.world Fixtures.server_error Fixtures.server_error Fixtures.players_1500 in
  let api_data := [Fixtures.record 3 "Exile"; Fixtures.record 3 "Exile"; Fixtures.record 42 "X"] in
  let s := initial_state [Fixtures.row 42 "Path of Exile" PNone PNone] in
  let out := sync Fixtures.ascii_lower Fixtures.ratio_90 net api_data Fixtures.index_poe2 s in
  NoDup (map id (db (snd out) ++ pending (snd out))).
Proof.
  intros net api_data s out.
  apply (X10_ids_stay_unique Fixtures.ascii_lower Fixtures.ratio_90 net api_data
      Fixtures.index_poe2 s
           (snd out) (fst out)).
  - repeat constructor. simpl. tauto.
  - reflexivity.
Defined.

(** ** The whole run *)

(** X11. The run never loses or changes a row: the table it leaves starts
    with the rows it found. When it raises, nothing was added. When it
    completes, nothing is left staged and the requests sent are the
    app-list request, the catalog request and then one player-count request
    per added row with a truthy Steam id. *)
Theorem X11_main_keeps_rows (lower : string -> string)
    (token_sort_ratio : string -> string -> Z) (net : network) (rows : list Game) :
  let out := main lower token_sort_ratio net (initial_state rows) in
  exists new,
    db (snd out) = rows ++ new /\
    (forall e, fst out = Raise e -> new = []) /\
    (fst out = Ok tt ->
     pending (snd out) = [] /\
     http_log (snd out) = STEAM_API_URL :: API_URL :: requests_of new).
Proof.
  unfold main, bind.
  pose proof (build_steam_app_dict_state lower net (initial_state rows)) as Hb.
  destruct (build_steam_app_dict lower net (initial_state rows)) as [[d|e] s1];
    simpl in Hb; destruct Hb as (Hdb1 & Hp1 & _ & Hh1).
  - destruct (fetch_catalog net s1) as [[api_data|e] s2] eqn:E2;
      destruct (fetch_catalog_state _ _ _ _ E2) as (Hdb2 & Hp2 & _ & Hh2).
    + unfold sync, bind.
      destruct (sync_loop lower token_sort_ratio net api_data d s2) as [[[]|e] s3] eqn:E3;
        unfold sync_loop in E3.
      * destruct (for_each_trace _ _ _ _ _ _ _ _ E3) as (new & _ & Hdb3 & Hp3 & _ & _ & Hh3).
        exists new. simpl. rewrite Hdb3, Hp3, Hh3, Hdb2, Hp2, Hh2, Hdb1, Hp1, Hh1.
        simpl. repeat split; auto. discriminate.
      * destruct (for_each_effect _ _ _ _ _ _ _ _ _ E3) as (Hdb3 & _ & _).
        exists []. simpl. rewrite app_nil_r, Hdb3, Hdb2, Hdb1.
        repeat split; auto; discriminate.
    + exists []. simpl. rewrite app_nil_r, Hdb2, Hdb1. repeat split; auto; discriminate.
  - exists []. simpl. rewrite app_nil_r, Hdb1. repeat split; auto; discriminate.
Qed.

Lemma X11_main_keeps_rows_witness :
  let net := Fixtures.world
               (Fixtures.ok_json (Fixtures.applist_body [Fixtures.app "Path of Exile" 238960]))
               (Fixtures.ok_json [Fixtures.record 1 "Path of Exile"])
               Fixtures.players_1500 in
  let rows := [Fixtures.row 42 "Exile" PNone PNone] in
  let out := main Fixtures.ascii_lower Fixtures.ratio_90 net (initial_state rows) in
  exists new,
    db (snd out) = rows ++ new /\
    (forall e, fst out = Raise e -> new = []) /\
    (fst out = Ok tt ->
     pending (snd out) = [] /\
     http_log (snd out) = STEAM_API_URL :: API_URL :: requests_of new).
Proof.
  intros net rows.
  exact (X11_main_keeps_rows Fixtures.ascii_lower Fixtures.ratio_90 net rows).
Defined.

(** X12. The catalog step raises only on a 200 answer whose body is not
    JSON; otherwise it returns the decoded list on 200 and the empty list
    on any other status. *)
Theorem X12_fetch_catalog_outcomes (net : network) (s s1 : state)
    (r : result (list CatalogRecord)) :
  fetch_catalog net s = (r, s1) ->
  let resp := freetogame_api net (http_log s) API_URL in
  match r with
  | Ok data =>
      (status_code resp = 200 /\ json resp = Some data) \/
      (status_code resp <> 200 /\ data = [])
  | Raise e =>
      status_code resp = 200 /\ json resp = None /\ e = JSONDecodeError
  end.
Proof.
  unfold fetch_catalog, fetch_api, bind, requests_get_catalog, response_json, ret,
    raise, print.
  destruct (Z.eqb_spec (status_code (freetogame_api net (http_log s) API_URL)) 200)
    as [E|E].
  - destruct (json _) as [data|]; intros H; inversion H; subst; simpl; auto.
  - intros H; inversion H; subst; simpl; auto.
Qed.

Lemma X12_fetch_catalog_outcomes_witness :
  let net := Fixtures.world Fixtures.server_error
               (mkResponse 200 "<html>maintenance</html>" None) Fixtures.server_error in
  status_code (freetogame_api net [] API_URL) = 200 /\
  json (freetogame_api net [] API_URL) = None /\
  JSONDecodeError = JSONDecodeError.
Proof.
  intros net.
  apply (X12_fetch_catalog_outcomes net (initial_state [])
           (with_request API_URL (initial_state [])) (Raise JSONDecodeError)).
  reflexivity.
Defined.

(** X13. For an id other than [None] and a body that is a JSON object whose
    [response] member is an object, the fetch never raises: it returns the
    [player_count] member as sent (a number, but also a string or [null]
    comes back as is), or [None] when the member is missing, after exactly
    one request. *)
Theorem X13_player_count_returned (net : network) (app_id : pyval) (s : state)
    (data inner : dict) :
  is_None app_id = false ->
  json (steam_api net (http_log s) (PLAYERS_URL app_id)) = Some (PDict data) ->
  dict_get "response" data = Some (PDict inner) ->
  get_steam_player_count net app_id s
  = (Ok (match dict_get "player_count" inner with Some v => v | None => PNone end),
     with_request (PLAYERS_URL app_id) s).
Proof.
  intros Hid Hjson Hresp.
  unfold get_steam_player_count, bind, requests_get_steam, response_json, lift, ret.
  rewrite Hid, Hjson. simpl. unfold dict_getitem. rewrite Hresp. simpl.
  unfold dict_contains, dict_getitem.
  destruct (dict_get "player_count" inner) as [v|]; reflexivity.
Qed.

Lemma X13_player_count_returned_witness :
  let net := Fixtures.world Fixtures.server_error Fixtures.server_error Fixtures.players_1500 in
  get_steam_player_count net (PInt 238960) (initial_state [])
  = (Ok (PInt 1500), with_request (PLAYERS_URL (PInt 238960)) (initial_state [])).
Proof.
  intros net.
  apply (X13_player_count_returned net (PInt 238960) (initial_state [])
           [("response", PDict [("player_count", PInt 1500); ("result", PInt 1)])]
           [("player_count", PInt 1500); ("result", PInt 1)]); reflexivity.
Defined.

(** ** The dashboard data *)

Lemma insert_by_id_perm (g : Game) (l : list Game) :
  Permutation (insert_by_id g l) (g :: l).
Proof.
  induction l as [|h t IH]; simpl; [apply Permutation_refl|].
  destruct (id g <=? id h); [apply Permutation_refl|].
  eapply perm_trans; [apply perm_skip; exact IH|apply perm_swap].
Qed.

Lemma sort_by_id_perm (l : list Game) : Permutation (sort_by_id l) l.
Proof.
  induction l as [|g l IH]; simpl; [constructor|].
  eapply perm_trans; [apply insert_by_id_perm|]. now apply perm_skip.
Qed.

(** What a run from a fresh session does to the store. *)
Lemma main_effect (lower : string -> string)
    (token_sort_ratio : string -> string -> Z) (net : network) (rows : list Game) :
  let out := main lower token_sort_ratio net (initial_state rows) in
  exists new,
    db (snd out) ++ pending (snd out) = rows ++ new /\
    Forall count_needs_appid new /\
    (fst out = Ok tt -> pending (snd out) = []).
Proof.
  unfold main, bind.
  pose proof (build_steam_app_dict_state lower net (initial_state rows)) as Hb.
  destruct (build_steam_app_dict lower net (initial_state rows)) as [[d|e] s1];
    simpl in Hb; destruct Hb as (Hdb1 & Hp1 & _ & _).
  - destruct (fetch_catalog net s1) as [[api_data|e] s2] eqn:E2;
      destruct (fetch_catalog_state _ _ _ _ E2) as (Hdb2 & Hp2 & _ & _).
    + unfold sync, bind.
      destruct (sync_loop lower token_sort_ratio net api_data d s2) as [[[]|e] s3] eqn:E3;
        unfold sync_loop in E3;
        destruct (for_each_effect _ _ _ _ _ _ _ _ _ E3) as (Hdb3 & (new & Hp3 & Hnew) & _);
        exists new; simpl; rewrite ?app_nil_r, Hdb3, Hp3, Hdb2, Hp2, Hdb1, Hp1; simpl;
        repeat split; auto; discriminate.
    + exists []. simpl. rewrite Hdb2, Hp2, Hdb1, Hp1. repeat split; auto; discriminate.
  - exists []. simpl. rewrite Hdb1, Hp1. repeat split; auto; discriminate.
Qed.

(** X14. The table data is read-only and has one entry per stored row,
    whatever order the database returns them in. The player-count cell is
    the text N/A exactly for a stored [None]; any other stored value,
    [0] included, is shown as it is. *)
Theorem X14_table_data_rows (select_order : list Game -> list Game) (s : state) :
  (forall l, Permutation (select_order l) l) ->
  exists table,
    table_data select_order s = (Ok table, s) /\
    Permutation table (map table_row (db s ++ pending s)) /\
    List.length table = List.length (db s ++ pending s) /\
    forall g,
      (steam_player_count g = PNone ->
       t_steam_player_count (table_row g) = PStr "N/A") /\
      (steam_player_count g <> PNone ->
       t_steam_player_count (table_row g) = steam_player_count g).
Proof.
  intros Hperm. exists (map table_row (select_order (db s ++ pending s))).
  split; [reflexivity|]. split; [apply Permutation_map, Hperm|]. split.
  - rewrite length_map. apply Permutation_length, Hperm.
  - intros g. unfold table_row. simpl.
    destruct (steam_player_count g); simpl; split; intros H; congruence.
Qed.

Lemma X14_table_data_rows_witness :
  let s := initial_state [Fixtures.row 42 "Path of Exile" (PInt 238960) (PInt 0);
                          Fixtures.row 7 "Exile" PNone PNone] in
  exists table,
    table_data sort_by_id s = (Ok table, s) /\
    Permutation table (map table_row (db s ++ pending s)) /\
    List.length table = List.length (db s ++ pending s) /\
    forall g,
      (steam_player_count g = PNone ->
       t_steam_player_count (table_row g) = PStr "N/A") /\
      (steam_player_count g <> PNone ->
       t_steam_player_count (table_row g) = steam_player_count g).
Proof.
  intros s.
  apply (X14_table_data_rows sort_by_id s).
  intros l. apply sort_by_id_perm.
Defined.

(** X15. The script end to end, when it completes from a table whose rows
    have a player count only under a truthy Steam id: the table shown has
    one entry per row of the final table, which still starts with the rows
    found at the start, and every row whose Steam id is falsy, old or new,
    is shown with N/A. *)
Theorem X15_script_shows_NA (lower : string -> string)
    (token_sort_ratio : string -> string -> Z) (net : network)
    (select_order : list Game -> list Game) (rows : list Game)
    (table : list TableRow) (s' : state) :
  (forall l, Permutation (select_order l) l) ->
  Forall count_needs_appid rows ->
  script lower token_sort_ratio net select_order (initial_state rows) = (Ok table, s') ->
  Permutation table (map table_row (db s')) /\
  (exists new, db s' = rows ++ new) /\
  Forall (fun g => truthy (steam_appid g) = false ->
                   t_steam_player_count (table_row g) = PStr "N/A")
         (db s').
Proof.
  intros Hperm Hrows. unfold script, bind.
  destruct (main lower token_sort_ratio net (initial_state rows)) as [[[]|e] s1] eqn:E1;
    [|discriminate].
  pose proof (main_effect lower token_sort_ratio net rows) as Hmain.
  cbv zeta in Hmain. rewrite E1 in Hmain. simpl in Hmain.
  destruct Hmain as (new & Hstore & Hnew & Hp).
  specialize (Hp eq_refl). rewrite Hp, app_nil_r in Hstore.
  unfold session_close, table_data, bind, session_query_all, ret. simpl.
  intros H. inversion H; subst; clear H. simpl. rewrite app_nil_r.
  split; [apply Permutation_map, Hperm|]. split; [eauto|].
  rewrite Hstore. apply Forall_app. split.
  - eapply Forall_impl; [|exact Hrows]. intros g Hg Ht.
    unfold table_row. simpl. now rewrite (Hg Ht).
  - eapply Forall_impl; [|exact Hnew]. intros g Hg Ht.
    unfold table_row. simpl. now rewrite (Hg Ht).
Qed.

Lemma X15_script_shows_NA_witness :
  let net := Fixtures.world
               (Fixtures.ok_json (Fixtures.applist_body [Fixtures.app "Exile" 7]))
               (Fixtures.ok_json [Fixtures.record 2 "Totally Unknown Game XYZ"])
               Fixtures.players_1500 in
  let rows := [Fixtures.row 42 "Path of Exile" (PInt 238960) (PInt 1500)] in
  let out := script Fixtures.ascii_lower Fixtures.ratio_90 net sort_by_id (initial_state rows) in
  Permutation
    [mkTableRow "![Totally Unknown Game XYZ](thumb)" "Totally Unknown Game XYZ"
                "MMORPG" "PC" "pub" "dev" "2013-10-23" (PStr "N/A");
     mkTableRow "![Path of Exile](thumb)" "Path of Exile"
                "MMORPG" "PC" "pub" "dev" "2013-10-23" (PInt 1500)]
    (map table_row (db (snd out))) /\
  (exists new, db (snd out) = rows ++ new) /\
  Forall (fun g => truthy (steam_appid g) = false ->
                   t_steam_player_count (table_row g) = PStr "N/A")
         (db (snd out)).
Proof.
  intros net rows out.
  apply (X15_script_shows_NA Fixtures.ascii_lower Fixtures.ratio_90 net sort_by_id rows).
  - intros l. apply sort_by_id_perm.
  - repeat constructor. unfold count_needs_appid. simpl. discriminate.
  - reflexivity.
Defined.

(** ** Incremental runs *)

Lemma enumerate_app {A} (l1 l2 : list A) :
  forall n, enumerate n (l1 ++ l2) = enumerate n l1 ++ enumerate (n + List.length l1) l2.
Proof.
  induction l1 as [|a l1 IH]; intros n; simpl.
  - now rewrite Nat.add_0_r.
  - rewrite IH. now rewrite Nat.add_succ_r.
Qed.

Lemma for_each_app {A} (body : A -> M unit) (xs ys : list A) :
  forall s,
  for_each (xs ++ ys) body s
  = match for_each xs body s with
    | (Ok _, s1) => for_each ys body s1
    | (Raise e, s1) => (Raise e, s1)
    end.
Proof.
  induction xs as [|x xs IH]; intros s; simpl; [reflexivity|].
  unfold bind. destruct (body x s) as [[[]|e] s1]; [apply IH|reflexivity].
Qed.

(** X16. After a completed [sync], a run over the same catalog with further
    records appended does only the work of the appended records: it is the
    loop over those alone, numbered from their place in the longer
    catalog. *)
Theorem X16_sync_incremental (lower : string -> string)
    (ratio1 ratio2 : string -> string -> Z) (net1 net2 : network)
    (catalog more : list CatalogRecord) (index1 index2 : dict) (s0 s1 s2 : state) :
  sync lower ratio1 net1 catalog index1 s0 = (Ok tt, s1) ->
  db s2 = db s1 -> pending s2 = [] ->
  sync_loop lower ratio2 net2 (catalog ++ more) index2 s2
  = for_each (enumerate (S (List.length catalog)) more)
             (loop_body lower ratio2 net2 index2 (List.length (catalog ++ more))) s2.
Proof.
  intros Hrun Hdb Hp. unfold sync, bind in Hrun.
  destruct (sync_loop lower ratio1 net1 catalog index1 s0) as [[[]|e] s1'] eqn:E1;
    [|discriminate].
  unfold session_commit in Hrun. inversion Hrun as [Hs1]. clear Hrun.
  unfold sync_loop in E1.
  destruct (for_each_effect _ _ _ _ _ _ _ _ _ E1) as (_ & _ & Hall).
  specialize (Hall eq_refl).
  unfold sync_loop. rewrite enumerate_app, for_each_app.
  rewrite for_each_all_stored; [reflexivity|].
  eapply Forall_impl; [|exact Hall]. intros item Hitem. simpl in Hitem.
  unfold store_has in *. rewrite Hdb, Hp, app_nil_r, <- Hs1. exact Hitem.
Qed.

Lemma X16_sync_incremental_witness :
  let net := Fixtures.world Fixtures.server_error Fixtures.server_error Fixtures.players_1500 in
  let catalog := [Fixtures.record 1 "Path of Exile"; Fixtures.record 2 "Unknown"] in
  let more := [Fixtures.record 3 "Exile"] in
  let s1 := snd (sync Fixtures.ascii_lower Fixtures.ratio_90 net catalog Fixtures.index_poe
      (initial_state [])) in
  sync_loop Fixtures.ascii_lower Fixtures.ratio_90 net (catalog ++ more) Fixtures.index_poe2
      (initial_state (db s1))
  = for_each (enumerate 3 more)
             (loop_body Fixtures.ascii_lower Fixtures.ratio_90 net Fixtures.index_poe2 3)
                 (initial_state (db s1)).
Proof.
  intros net catalog more s1.
  apply (X16_sync_incremental Fixtures.ascii_lower Fixtures.ratio_90 Fixtures.ratio_90 net net
      catalog more
           Fixtures.index_poe Fixtures.index_poe2 (initial_state []) s1
           (initial_state (db s1))).
  - reflexivity.
  - reflexivity.
  - reflexivity.
Defined.

(** ** Letters outside ASCII *)

(** The exact match follows [str.lower] wherever it goes. Take the title
    made of a capital E with acute accent followed by XILE, which Python
    lower-cases to the same word in small letters (both strings are given
    by their UTF-8 bytes): an index holding that key answers with its
    value, whatever the scorer and the threshold. *)
Example exact_match_beyond_ascii (lower : string -> string)
    (token_sort_ratio : string -> string -> Z) (threshold : Z) :
  let title := String (ascii_of_nat 195) (String (ascii_of_nat 137) "XILE") in
  let key := String (ascii_of_nat 195) (String (ascii_of_nat 169) "xile") in
  lower title = key ->
  match_app_id lower token_sort_ratio title [(key, PInt 5)] threshold = Ok (PInt 5).
Proof.
  intros title key Hlower. unfold match_app_id, dict_contains, dict_getitem.
  rewrite Hlower. subst key. cbv. reflexivity.
Qed.
